(** * A shallow embedding of the minced MinCED report parser (src/src/lib.rs)

    The Rust crate is written with nom combinators over [&str].  We model:
    - text as Stdlib [string] (bytes; every predicate nom applies here is an
      ASCII predicate, so byte-wise and char-wise scanning agree on UTF-8);
    - a nom parser as a function from the input to an [IResult]: the
      remaining input with a value, nom's recoverable [Err::Error], or a
      panic of the Rust thread (a failed [unwrap] or an overflowing
      [usize] operation);
    - [usize] as a [Z] in [0, 2^64), with arithmetic as compiled with
      overflow checks (Rust's dev and test profiles): an overflowing [+] or
      [-] panics. *)

From Stdlib Require Import String Ascii ZArith List Lia Bool.
Import ListNotations.
Open Scope Z_scope.

(** ** Outcomes *)

Inductive IResult (A : Type) : Type :=
| Done (remaining : string) (value : A)  (* Ok((remaining, value)) *)
| Error                                  (* Err(Err::Error(_)) *)
| Panic.                                 (* the thread panicked *)
Arguments Done {A} remaining value.
Arguments Error {A}.
Arguments Panic {A}.

Definition Parser (A : Type) : Type := string -> IResult A.

Definition bind {A B} (r : IResult A) (k : string -> A -> IResult B) : IResult B :=
  match r with
  | Done i a => k i a
  | Error => Error
  | Panic => Panic
  end.

(** Sequencing of nom parsers (the [tuple] combinator): the remaining input
    of one step is the input of the next. *)
Notation "'let!' ( i , x ) := r 'in' k" := (bind r (fun i x => k))
  (at level 200, i name, x name, r at level 100, k at level 200).

(** Plain computations that may panic: [None] is a panic. *)
Notation "'let?' x := o 'in' k" :=
  (match o with Some x => k | None => None end)
  (at level 200, x name, o at level 100, k at level 200).

Definition panic_or {A} (remaining : string) (o : option A) : IResult A :=
  match o with
  | Some v => Done remaining v
  | None => Panic
  end.

(** ** usize *)

Definition usize_bound : Z := 2 ^ 64.

(** [a - b] with overflow checks. *)
Definition sub_usize (a b : Z) : option Z :=
  if a <? b then None else Some (a - b).

(** [a + b] with overflow checks. *)
Definition add_usize (a b : Z) : option Z :=
  if a + b <? usize_bound then Some (a + b) else None.

(** [s.len()] of a [&str]: its length in bytes. *)
Definition len (s : string) : Z := Z.of_nat (String.length s).

Definition is_digit (c : ascii) : bool :=
  let n := nat_of_ascii c in (48 <=? n)%nat && (n <=? 57)%nat.

Definition is_alpha (c : ascii) : bool :=
  let n := nat_of_ascii c in
  ((65 <=? n)%nat && (n <=? 90)%nat) || ((97 <=? n)%nat && (n <=? 122)%nat).

Definition is_multispace (c : ascii) : bool :=
  let n := nat_of_ascii c in
  (n =? 32)%nat || (n =? 9)%nat || (n =? 13)%nat || (n =? 10)%nat.

Definition digit_value (c : ascii) : Z := Z.of_nat (nat_of_ascii c) - 48.

(** Value of a run of decimal digits, most significant first; [None] when a
    byte is not a digit. *)
Fixpoint digits_value_acc (acc : Z) (s : string) : option Z :=
  match s with
  | EmptyString => Some acc
  | String c s' =>
      if is_digit c then digits_value_acc (acc * 10 + digit_value c) s' else None
  end.

(** [<usize as FromStr>::from_str]: an optional leading [+], then one or
    more decimal digits, with a value that fits the type. *)
Definition parse_usize (s : string) : option Z :=
  let digits :=
    match s with
    | String "+"%char (String _ _ as rest) => Some rest
    | String "+"%char EmptyString => None
    | EmptyString => None
    | _ => Some s
    end in
  let? d := digits in
  let? v := digits_value_acc 0 d in
  if v <? usize_bound then Some v else None.

(** ** nom primitives ([nom::bytes::complete], [nom::character::complete]) *)

Fixpoint strip_prefix (t s : string) : option string :=
  match t, s with
  | EmptyString, _ => Some s
  | String c t', String d s' => if Ascii.eqb c d then strip_prefix t' s' else None
  | String _ _, EmptyString => None
  end.

(** [tag(t)] *)
Definition tag (t : string) : Parser string := fun input =>
  match strip_prefix t input with
  | Some remaining => Done remaining t
  | None => Error
  end.

(** [char(c)] *)
Definition char (c : ascii) : Parser ascii := fun input =>
  match input with
  | String d remaining => if Ascii.eqb c d then Done remaining c else Error
  | EmptyString => Error
  end.

Fixpoint split_while (p : ascii -> bool) (s : string) : string * string :=
  match s with
  | EmptyString => (EmptyString, EmptyString)
  | String c s' =>
      if p c then let (a, b) := split_while p s' in (String c a, b)
      else (EmptyString, s)
  end.

(** [take_while1]-style recognisers: the longest non-empty prefix of bytes
    satisfying [p]. *)
Definition take_while1 (p : ascii -> bool) : Parser string := fun input =>
  match split_while p input with
  | (EmptyString, _) => Error
  | (matched, remaining) => Done remaining matched
  end.

(** [digit1], [alpha1], [multispace1] *)
Definition digit1 : Parser string := take_while1 is_digit.
Definition alpha1 : Parser string := take_while1 is_alpha.
Definition multispace1 : Parser string := take_while1 is_multispace.

Fixpoint find_split (t s : string) : option (string * string) :=
  match strip_prefix t s with
  | Some _ => Some (EmptyString, s)
  | None =>
      match s with
      | EmptyString => None
      | String c s' =>
          match find_split t s' with
          | Some (a, b) => Some (String c a, b)
          | None => None
          end
      end
  end.

(** [take_until(t)]: everything before the first occurrence of [t]; an
    error when [t] does not occur. *)
Definition take_until (t : string) : Parser string := fun input =>
  match find_split t input with
  | Some (before, remaining) => Done remaining before
  | None => Error
  end.

Definition LF : ascii := "010"%char.
Definition CR : ascii := "013"%char.

(** [line_ending]: ["\n"] or ["\r\n"]. *)
Definition line_ending : Parser string := fun input =>
  match input with
  | String c remaining =>
      if Ascii.eqb c LF then Done remaining (String LF EmptyString)
      else if Ascii.eqb c CR then
        match remaining with
        | String d remaining' =>
            if Ascii.eqb d LF then Done remaining' (String CR (String LF EmptyString))
            else Error
        | EmptyString => Error
        end
      else Error
  | EmptyString => Error
  end.

(** Scan of [not_line_ending]: [None] when the first ['\r'] or ['\n'] is a
    ['\r'] not followed by ['\n']. *)
Fixpoint split_line (s : string) : option (string * string) :=
  match s with
  | EmptyString => Some (EmptyString, EmptyString)
  | String c s' =>
      if Ascii.eqb c LF then Some (EmptyString, s)
      else if Ascii.eqb c CR then
        match s' with
        | String d _ => if Ascii.eqb d LF then Some (EmptyString, s) else None
        | EmptyString => None
        end
      else
        match split_line s' with
        | Some (a, b) => Some (String c a, b)
        | None => None
        end
  end.

(** [not_line_ending]: everything up to the line terminator, or to the end
    of the input when there is none. *)
Definition not_line_ending : Parser string := fun input =>
  match split_line input with
  | Some (line, remaining) => Done remaining line
  | None => Error
  end.

(** ** nom combinators ([alt], [many0], [many1]) *)

(** [alt((p, q))]: [q] is tried on the original input only when [p] fails
    with a recoverable error. *)
Definition alt {A} (p q : Parser A) : Parser A := fun input =>
  match p input with
  | Error => q input
  | r => r
  end.

(** The loop shared by [many0] and [many1], run for at most [fuel]
    iterations; [None] when the fuel is spent before the loop returns.
    A recoverable error ends the loop with the items so far; a success that
    consumes nothing is nom's infinite-loop guard, an error. *)
Fixpoint many_loop {A} (f : Parser A) (fuel : nat) (acc : list A) (i : string)
  : option (IResult (list A)) :=
  match fuel with
  | O => None
  | S fuel' =>
      match f i with
      | Error => Some (Done i (rev acc))
      | Panic => Some Panic
      | Done i1 o =>
          if (String.length i1 =? String.length i)%nat then Some Error
          else many_loop f fuel' (o :: acc) i1
      end
  end.

(** The loop on input [i] with one more iteration than [i] has bytes
    ([many_loop_halts] shows it always returns within that bound). *)
Definition run_many {A} (f : Parser A) (acc : list A) (i : string) : IResult (list A) :=
  match many_loop f (S (String.length i)) acc i with
  | Some r => r
  | None => Error
  end.

(** [many0(f)] *)
Definition many0 {A} (f : Parser A) : Parser (list A) := fun input =>
  run_many f [] input.

(** [many1(f)]: the first item is required and is not subject to the
    no-progress guard. *)
Definition many1 {A} (f : Parser A) : Parser (list A) := fun input =>
  match f input with
  | Error => Error
  | Panic => Panic
  | Done i1 o => run_many f [o] i1
  end.

(** ** Data model *)

(** [struct RepeatSpacer<'a>] *)
Module RepeatSpacer.
Record t := mk {
  repeat : string;
  spacer : string;
  start : Z;
  end_ : Z;
  spacer_start : Z;
  spacer_end : Z;
  repeat_start : Z;
  repeat_end : Z
}.
End RepeatSpacer.

(** [struct RepeatOnly<'a>] *)
Module RepeatOnly.
Record t := mk {
  repeat : string;
  start : Z;
  end_ : Z
}.
End RepeatOnly.

(** [enum Repeat<'a>] *)
Inductive Repeat : Type :=
| WithSpacer (r : RepeatSpacer.t)
| WithoutSpacer (r : RepeatOnly.t).

(** [struct Array<'a>] *)
Module Array.
Record t := mk {
  order : Z;
  start : Z;
  end_ : Z;
  repeat_spacers : list Repeat
}.
End Array.

(** [struct Contig<'a>] *)
Module Contig.
Record t := mk {
  accession : string;
  bp : Z;
  arrays : list Array.t
}.
End Contig.

(** ** The parsers of lib.rs *)

(** [skip_one_line] *)
Definition skip_one_line : Parser unit := fun input =>
  let! (i, _line) := not_line_ending input in
  let! (remaining, _le) := line_ending i in
  Done remaining tt.

(** [skip_empty_line] *)
Definition skip_empty_line : Parser unit := fun input =>
  let! (remaining, _le) := line_ending input in
  Done remaining tt.

(** [parse_footer] *)
Definition parse_footer : Parser unit := fun input =>
  let! (i, _a) := skip_empty_line input in
  let! (i, _b) := skip_one_line i in
  let! (i, _c) := skip_empty_line i in
  let! (remainder, _d) := skip_empty_line i in
  Done remainder tt.

(** The [tuple] of [parse_crispr_order_and_coordinates]: the three digit
    runs [(raw_order, start, end)]. *)
Definition crispr_header_tuple : Parser (string * string * string) := fun input =>
  let! (i, _t1) := tag "CRISPR" input in
  let! (i, _c1) := char " "%char i in
  let! (i, raw_order) := digit1 i in
  let! (i, _ws) := multispace1 i in
  let! (i, _t2) := tag "Range:" i in
  let! (i, _c2) := char " "%char i in
  let! (i, start) := digit1 i in
  let! (i, _t3) := tag " - " i in
  let! (remaining, end_) := digit1 i in
  Done remaining (raw_order, start, end_).

(** [parse_crispr_order_and_coordinates] *)
Definition parse_crispr_order_and_coordinates : Parser (Z * Z * Z) := fun input =>
  match crispr_header_tuple input with
  | Done remaining (raw_order, start, end_) =>
      panic_or remaining (
        let? o := parse_usize raw_order in
        let? order := sub_usize o 1 in
        let? s := parse_usize start in
        let? start0 := sub_usize s 1 in
        let? e := parse_usize end_ in
        Some (order, start0, e))
  | Error => Error
  | Panic => Panic
  end.

(** The [tuple] of [parse_accession_line]: [(accession, bp)]. *)
Definition accession_line_tuple : Parser (string * string) := fun input =>
  let! (i, _t1) := tag "Sequence '" input in
  let! (i, accession) := take_until "'" i in
  let! (i, _t2) := tag "'" i in
  let! (i, _c) := char " "%char i in
  let! (i, _t3) := tag "(" i in
  let! (i, bp) := take_until " " i in
  let! (remainder, _t4) := tag " bp)" i in
  Done remainder (accession, bp).

(** [parse_accession_line] *)
Definition parse_accession_line : Parser (string * Z) := fun input =>
  match accession_line_tuple input with
  | Done remainder (accession, bp) =>
      panic_or remainder (let? n := parse_usize bp in Some (accession, n))
  | Error => Error
  | Panic => Panic
  end.

(** The [tuple] of [parse_repeat_only]: [(raw_start, repeat)]. *)
Definition repeat_only_tuple : Parser (string * string) := fun input =>
  let! (i, raw_start) := digit1 input in
  let! (i, _ws1) := multispace1 i in
  let! (i, repeat) := alpha1 i in
  let! (remaining, _ws2) := multispace1 i in
  Done remaining (raw_start, repeat).

(** [parse_repeat_only] *)
Definition parse_repeat_only : Parser Repeat := fun input =>
  match repeat_only_tuple input with
  | Done remaining (raw_start, repeat) =>
      panic_or remaining (
        let? p := parse_usize raw_start in
        let? start := sub_usize p 1 in
        let? end_ := add_usize start (len repeat) in
        Some (WithoutSpacer (RepeatOnly.mk repeat start end_)))
  | Error => Error
  | Panic => Panic
  end.

(** The [tuple] of [parse_repeat_with_spacer]: [(raw_start, repeat, spacer)]. *)
Definition repeat_with_spacer_tuple : Parser (string * string * string) := fun input =>
  let! (i, raw_start) := digit1 input in
  let! (i, _ws1) := multispace1 i in
  let! (i, repeat) := alpha1 i in
  let! (i, _ws2) := multispace1 i in
  let! (i, spacer) := alpha1 i in
  let! (i, _rest) := not_line_ending i in
  let! (remaining, _le) := line_ending i in
  Done remaining (raw_start, repeat, spacer).

(** [parse_repeat_with_spacer]; the fields are evaluated in the order the
    struct literal lists them. *)
Definition parse_repeat_with_spacer : Parser Repeat := fun input =>
  match repeat_with_spacer_tuple input with
  | Done remaining (raw_start, repeat, spacer) =>
      panic_or remaining (
        let? p := parse_usize raw_start in
        let? start := sub_usize p 1 in
        let? e1 := add_usize start (len repeat) in
        let? end_ := add_usize e1 (len spacer) in
        let? repeat_end := add_usize start (len repeat) in
        let? spacer_start := add_usize start (len repeat) in
        let? e2 := add_usize start (len repeat) in
        let? spacer_end := add_usize e2 (len spacer) in
        Some (WithSpacer (RepeatSpacer.mk repeat spacer start end_
                            spacer_start spacer_end start repeat_end)))
  | Error => Error
  | Panic => Panic
  end.

(** [parse_repeat_spacer_line] *)
Definition parse_repeat_spacer_line : Parser Repeat :=
  alt parse_repeat_with_spacer parse_repeat_only.

(** [parse_array] *)
Definition parse_array : Parser Array.t := fun input =>
  let! (i, _e1) := skip_empty_line input in
  let! (i, header) := parse_crispr_order_and_coordinates i in
  let! (i, _e2) := skip_empty_line i in
  let! (i, _l1) := skip_one_line i in
  let! (i, _l2) := skip_one_line i in
  let! (i, repeat_spacers) := many1 parse_repeat_spacer_line i in
  let! (i, _l3) := skip_one_line i in
  let! (remainder, _l4) := skip_one_line i in
  let '(order, start, end_) := header in
  Done remainder (Array.mk order start end_ repeat_spacers).

(** [parse_contig_arrays] *)
Definition parse_contig_arrays : Parser Contig.t := fun input =>
  let! (i, acc_bp) := parse_accession_line input in
  let! (i, _e) := skip_empty_line i in
  let! (i, arrays) := many1 parse_array i in
  let! (remainder, _f) := parse_footer i in
  let '(accession, bp) := acc_bp in
  Done remainder (Contig.mk accession bp arrays).

(** The [Result] returned by [parse]. *)
Inductive ParseResult : Type :=
| ParseOk (contigs : list Contig.t)   (* Ok(contigs) *)
| ParseErr                            (* Err(e) *)
| ParsePanic.                         (* the thread panicked *)

(** [parse]: the remaining input of [many0] is dropped. *)
Definition parse (input : string) : ParseResult :=
  match many0 parse_contig_arrays input with
  | Done _ contigs => ParseOk contigs
  | Error => ParseErr
  | Panic => ParsePanic
  end.

(** ** Report texts used in the examples below *)

Definition tab : string := String "009"%char EmptyString.

(** Lines joined with ['\n'], each line terminated. *)
Definition lines (l : list string) : string :=
  fold_right (fun line acc => (line ++ String LF acc)%string) EmptyString l.

(** The table of one array: header, decoration, rows, divider, summary. *)
Definition single_array_lines : list string :=
  [ "CRISPR 1 Range: 10 - 50";
    "POSITION" ++ tab ++ "REPEAT" ++ tab ++ "SPACER";
    "--------" ++ tab ++ "-----------------------------" ++ tab ++ "----------";
    "10" ++ tab ++ tab ++ "CAAGTGCACCAACCAATCTCACCACCTCA" ++ tab ++ "GGGGGTGCAC"
         ++ tab ++ "[ 29, 10 ]";
    "49" ++ tab ++ tab ++ "A";
    "--------" ++ tab ++ "-----------------------------" ++ tab ++ "----------";
    "Repeats: 2" ++ tab ++ "Average Length: 29" ++ tab ++ "Average Length: 10" ]%string.

(** One contig [X] of 100 bp with the array above and its footer. *)
Definition single_contig_doc : string :=
  lines (List.app [ "Sequence 'X' (100 bp)"; "" ]%string
           (List.app single_array_lines
                     [ ""; "Time to find repeats: 1 ms"; ""; "" ]%string)).

(** The array expected from [single_array_lines]: order [1 - 1], range
    [10 - 1, 50]; the first row at position 10 with a 29-byte repeat and a
    10-byte spacer, the last row at position 49 with a 1-byte repeat. *)
Definition single_array_expected : Array.t :=
  Array.mk (1 - 1) (10 - 1) 50
    [ WithSpacer (RepeatSpacer.mk "CAAGTGCACCAACCAATCTCACCACCTCA" "GGGGGTGCAC"
                    (10 - 1) (10 - 1 + 29 + 10) (10 - 1 + 29) (10 - 1 + 29 + 10)
                    (10 - 1) (10 - 1 + 29));
      WithoutSpacer (RepeatOnly.mk "A" (49 - 1) (49 - 1 + 1)) ]%string.

(** The records expected from [single_contig_doc]. *)
Definition single_contig_expected : list Contig.t :=
  [ Contig.mk "X"%string 100 [ single_array_expected ] ].

(** [single_contig_doc] with the array's ordinal changed to 0. *)
Definition zero_order_doc : string :=
  lines (List.app [ "Sequence 'X' (100 bp)"; ""; "CRISPR 0 Range: 10 - 50" ]%string
           (List.app (List.tl single_array_lines)
                     [ ""; "Time to find repeats: 1 ms"; ""; "" ]%string)).

(** [single_contig_doc] with a length field that is not a number. *)
Definition non_numeric_bp_doc : string :=
  lines (List.app [ "Sequence 'X' (abc bp)"; "" ]%string
           (List.app single_array_lines
                     [ ""; "Time to find repeats: 1 ms"; ""; "" ]%string)).

(** [parse_array]'s input: the array's table after its blank line. *)
Definition array_text : string := lines single_array_lines.

(** A contig whose array has a row without spacer followed by a row with
    one. *)
Definition spacerless_first_row_doc : string :=
  lines [ "Sequence 'X' (100 bp)"; ""; "CRISPR 1 Range: 1 - 10"; "POSITION";
          "--------"; "1 ACGT"; "5 ACGT GG"; "--------"; "Repeats: 2"; "";
          "Time to find repeats: 1 ms"; ""; "" ]%string.

(** The array [parse] returns for [spacerless_first_row_doc]: order
    [1 - 1], range [1 - 1, 10]; the row [1 ACGT] (position 1, no spacer),
    then the row [5 ACGT GG] (position 5, spacer of 2 bytes). *)
Definition spacerless_first_row_array : Array.t :=
  Array.mk 0 0 10
    [ WithoutSpacer (RepeatOnly.mk "ACGT" 0 4);
      WithSpacer (RepeatSpacer.mk "ACGT" "GG" 4 10 8 10 4 8) ]%string.

Definition spacerless_first_row_contig : Contig.t :=
  Contig.mk "X"%string 100 [ spacerless_first_row_array ].

(** [true] when no [WithoutSpacer] precedes another element. *)
Fixpoint without_spacer_only_last (l : list Repeat) : bool :=
  match l with
  | [] => true
  | [_] => true
  | WithoutSpacer _ :: _ :: _ => false
  | WithSpacer _ :: l' => without_spacer_only_last l'
  end.

(** The rows a loop of [f] consumes one after the other, from [i] up to [r]. *)
Inductive chain {A} (f : Parser A) : string -> list A -> string -> Prop :=
| chain_nil i : chain f i [] i
| chain_cons i i1 o l r : f i = Done i1 o -> chain f i1 l r -> chain f i (o :: l) r.

(** Every byte of [s] satisfies [p]. *)
Fixpoint all_chars (p : ascii -> bool) (s : string) : bool :=
  match s with
  | EmptyString => true
  | String c s' => p c && all_chars p s'
  end.

(** The first byte of [s] exists and satisfies [p]. *)
Definition starts_with (p : ascii -> bool) (s : string) : bool :=
  match s with
  | String c _ => p c
  | EmptyString => false
  end.

Definition is_line_terminator (c : ascii) : bool := Ascii.eqb c LF || Ascii.eqb c CR.

Definition not_quote (c : ascii) : bool := negb (Ascii.eqb c "'"%char).

Definition not_space (c : ascii) : bool := negb (Ascii.eqb c " "%char).

(** [d] is a non-empty run of decimal digits. *)
Definition decimal_run (d : string) : bool :=
  match d with
  | EmptyString => false
  | _ => all_chars is_digit d
  end.

(** [d] is a non-empty run of ASCII letters. *)
Definition letter_run (d : string) : bool :=
  match d with
  | EmptyString => false
  | _ => all_chars is_alpha d
  end.

(** [d] is a non-empty run of whitespace as [multispace1] reads it. *)
Definition space_run (d : string) : bool :=
  match d with
  | EmptyString => false
  | _ => all_chars is_multispace d
  end.

(** Prepends [pre] to the items of a successful loop result. *)
Definition prepend_items {A} (pre : list A) (r : IResult (list A)) : IResult (list A) :=
  match r with
  | Done i l => Done i (pre ++ l)
  | Error => Error
  | Panic => Panic
  end.

(** The sequence fields of a row are non-empty runs of ASCII letters. *)
Definition row_letters (v : Repeat) : bool :=
  match v with
  | WithSpacer x => letter_run (RepeatSpacer.repeat x) && letter_run (RepeatSpacer.spacer x)
  | WithoutSpacer x => letter_run (RepeatOnly.repeat x)
  end.

(** The digit run [raw] is a 1-based position [p] whose row, [w] bytes
    long from [p - 1], ends within [usize]. *)
Definition position_fits (raw : string) (w : Z) : Prop :=
  exists p, parse_usize raw = Some p /\ 1 <= p /\ p - 1 + w < usize_bound.

(** What [parse] guarantees of each contig it returns: an accession without
    a quote, at least one array, and in each array at least one row, each
    with letter-run sequences. *)
Definition contig_ok (c : Contig.t) : Prop :=
  all_chars not_quote (Contig.accession c) = true /\
  Contig.arrays c <> [] /\
  Forall (fun a => Array.repeat_spacers a <> [] /\
                   Forall (fun v => row_letters v = true) (Array.repeat_spacers a))
         (Contig.arrays c).



(** ** Consumption: every parser returns a suffix of its input *)

Definition shrinks {A} (p : Parser A) : Prop :=
  forall i r v, p i = Done r v -> (String.length r <= String.length i)%nat.

Definition strictly_shrinks {A} (p : Parser A) : Prop :=
  forall i r v, p i = Done r v -> (String.length r < String.length i)%nat.

Create HintDb lens.

Lemma length_app (a b : string) :
  String.length (a ++ b) = (String.length a + String.length b)%nat.
Proof. induction a; simpl; auto. Qed.

Lemma app_assoc_str (a b c : string) : ((a ++ b) ++ c = a ++ (b ++ c))%string.
Proof. induction a; simpl; congruence. Qed.

Lemma bind_Done {A B} (r : IResult A) (k : string -> A -> IResult B) rest v :
  bind r k = Done rest v -> exists i a, r = Done i a /\ k i a = Done rest v.
Proof. destruct r; simpl; intros H; try discriminate; eauto. Qed.

Lemma panic_or_Done {A} rem (o : option A) r v :
  panic_or rem o = Done r v -> r = rem /\ o = Some v.
Proof. destruct o; simpl; intros H; inversion H; auto. Qed.

(** Inverts a chain of [let!] steps that ended in [Done]. *)
Ltac inv_binds :=
  repeat match goal with
  | H : bind _ _ = Done _ _ |- _ =>
      let i := fresh "i" in let a := fresh "a" in
      let H1 := fresh "H" in let H2 := fresh "H" in
      apply bind_Done in H; destruct H as [i [a [H1 H2]]]; cbv beta in H2
  | H : context [match ?x with pair _ _ => _ end] |- _ => destruct x
  | H : Done _ _ = Done _ _ |- _ => injection H; clear H; intros; subst
  end.

(** Replaces each [p i = Done r v] by the length fact its hint gives. *)
Ltac length_facts :=
  repeat match goal with
  | H : ?p ?i = Done ?r ?v |- _ =>
      first
        [ let S := fresh "S" in
          assert (S : strictly_shrinks p) by (eauto with lens);
          apply S in H; clear S
        | let S := fresh "S" in
          assert (S : shrinks p) by (eauto with lens);
          apply S in H; clear S ]
  end.

Lemma strictly_shrinks_shrinks {A} (p : Parser A) : strictly_shrinks p -> shrinks p.
Proof. intros Hp i r v H. apply Hp in H. lia. Qed.
#[local] Hint Resolve strictly_shrinks_shrinks : lens.

Lemma strip_prefix_app t s r : strip_prefix t s = Some r -> s = (t ++ r)%string.
Proof.
  revert s; induction t as [|c t IH]; intros s H; simpl in H.
  - inversion H; reflexivity.
  - destruct s as [|d s]; [discriminate|].
    destruct (Ascii.eqb c d) eqn:E; [|discriminate].
    apply Ascii.eqb_eq in E; subst. simpl. f_equal. auto.
Qed.

Lemma tag_shrinks t : shrinks (tag t).
Proof.
  intros i r v H. unfold tag in H. destruct (strip_prefix t i) eqn:E; inversion H; subst.
  apply strip_prefix_app in E; subst. rewrite length_app. lia.
Qed.

Lemma tag_cons_strict c t : strictly_shrinks (tag (String c t)).
Proof.
  intros i r v H. unfold tag in H. destruct (strip_prefix _ i) eqn:E; inversion H; subst.
  apply strip_prefix_app in E; subst. simpl. rewrite length_app. lia.
Qed.

Lemma char_strict c : strictly_shrinks (char c).
Proof.
  intros [|d i] r v H; simpl in H; [discriminate|].
  destruct (Ascii.eqb c d); inversion H; subst; simpl; lia.
Qed.

Lemma split_while_app p s a b : split_while p s = (a, b) -> s = (a ++ b)%string.
Proof.
  revert a b; induction s as [|c s IH]; intros a b H; simpl in H.
  - inversion H; reflexivity.
  - destruct (p c).
    + destruct (split_while p s) as [a' b'] eqn:E. inversion H; subst.
      simpl. f_equal. auto.
    + inversion H; reflexivity.
Qed.

Lemma take_while1_strict p : strictly_shrinks (take_while1 p).
Proof.
  intros i r v H. unfold take_while1 in H.
  destruct (split_while p i) as [a b] eqn:E. apply split_while_app in E; subst.
  destruct a; inversion H; subst. simpl. rewrite length_app. lia.
Qed.

Lemma digit1_strict : strictly_shrinks digit1.
Proof. apply take_while1_strict. Qed.
Lemma alpha1_strict : strictly_shrinks alpha1.
Proof. apply take_while1_strict. Qed.
Lemma multispace1_strict : strictly_shrinks multispace1.
Proof. apply take_while1_strict. Qed.

Lemma find_split_app t s a b : find_split t s = Some (a, b) -> s = (a ++ b)%string.
Proof.
  revert a b; induction s as [|c s IH]; intros a b H; simpl in H.
  - destruct (strip_prefix t ""); inversion H; reflexivity.
  - destruct (strip_prefix t (String c s)).
    + inversion H; reflexivity.
    + destruct (find_split t s) as [[a' b']|] eqn:E; inversion H; subst.
      simpl. f_equal. auto.
Qed.

Lemma take_until_shrinks t : shrinks (take_until t).
Proof.
  intros i r v H. unfold take_until in H.
  destruct (find_split t i) as [[a b]|] eqn:E; inversion H; subst.
  apply find_split_app in E; subst. rewrite length_app. lia.
Qed.

Lemma line_ending_strict : strictly_shrinks line_ending.
Proof.
  intros [|c i] r v H; simpl in H; [discriminate|].
  destruct (Ascii.eqb c LF); [inversion H; subst; simpl; lia|].
  destruct (Ascii.eqb c CR); [|discriminate].
  destruct i as [|d i]; [discriminate|].
  destruct (Ascii.eqb d LF); inversion H; subst; simpl; lia.
Qed.

Lemma split_line_app s a b : split_line s = Some (a, b) -> s = (a ++ b)%string.
Proof.
  revert a b; induction s as [|c s IH]; intros a b H; simpl in H.
  - inversion H; reflexivity.
  - destruct (Ascii.eqb c LF); [inversion H; reflexivity|].
    destruct (Ascii.eqb c CR).
    + destruct s as [|d s']; [discriminate|].
      destruct (Ascii.eqb d LF); inversion H; reflexivity.
    + destruct (split_line s) as [[a' b']|] eqn:E; inversion H; subst.
      simpl. f_equal. auto.
Qed.

Lemma not_line_ending_shrinks : shrinks not_line_ending.
Proof.
  intros i r v H. unfold not_line_ending in H.
  destruct (split_line i) as [[a b]|] eqn:E; inversion H; subst.
  apply split_line_app in E; subst. rewrite length_app. lia.
Qed.

#[local] Hint Resolve tag_shrinks tag_cons_strict char_strict digit1_strict
  alpha1_strict multispace1_strict take_until_shrinks line_ending_strict
  not_line_ending_shrinks : lens.

(** ** The [many] loops *)

Lemma many_loop_halts {A} (f : Parser A) :
  shrinks f ->
  forall n acc i, (String.length i < n)%nat -> many_loop f n acc i <> None.
Proof.
  intros Hf n; induction n as [|n IH]; intros acc i Hn; [lia|].
  simpl. destruct (f i) as [i1 o| |] eqn:E; try discriminate.
  destruct (String.length i1 =? String.length i)%nat eqn:L; [discriminate|].
  apply Nat.eqb_neq in L. apply Hf in E. apply IH. lia.
Qed.

Lemma many_loop_result {A} (f : Parser A) :
  strictly_shrinks f ->
  forall n acc i, (String.length i < n)%nat ->
  many_loop f n acc i = Some Panic \/
  exists l r, many_loop f n acc i = Some (Done r (rev acc ++ l)) /\
              chain f i l r /\ f r = Error.
Proof.
  intros Hf n; induction n as [|n IH]; intros acc i Hn; [lia|].
  simpl. destruct (f i) as [i1 o| |] eqn:E; auto.
  - pose proof (Hf _ _ _ E) as L.
    destruct (String.length i1 =? String.length i)%nat eqn:L'.
    { apply Nat.eqb_eq in L'. lia. }
    destruct (IH (o :: acc) i1 ltac:(lia)) as [H | [l [r [H1 [H2 H3]]]]]; auto.
    right. exists (o :: l), r. split; [|split; auto].
    + rewrite H1. simpl. rewrite <- app_assoc. reflexivity.
    + econstructor; eauto.
  - right. exists [], i. rewrite app_nil_r. split; auto. split; auto. constructor.
Qed.

Lemma chain_shrinks {A} (f : Parser A) i l r :
  shrinks f -> chain f i l r -> (String.length r <= String.length i)%nat.
Proof.
  intros Hf H; induction H as [i|i i1 o l r E _ IH]; [lia|].
  apply Hf in E. lia.
Qed.

Lemma run_many_result {A} (f : Parser A) acc i :
  strictly_shrinks f ->
  run_many f acc i = Panic \/
  exists l r, run_many f acc i = Done r (rev acc ++ l) /\ chain f i l r /\ f r = Error.
Proof.
  intros Hf. unfold run_many.
  destruct (many_loop_result f Hf (S (String.length i)) acc i ltac:(lia))
    as [H | [l [r [H1 H2]]]]; rewrite ?H, ?H1; eauto.
Qed.

Lemma run_many_shrinks {A} (f : Parser A) acc :
  strictly_shrinks f -> shrinks (run_many f acc).
Proof.
  intros Hf i r v H.
  destruct (run_many_result f acc i Hf) as [E | [l [r' [E [C _]]]]];
    rewrite E in H; inversion H; subst.
  apply (chain_shrinks f i l r); auto with lens.
Qed.

Lemma many0_shrinks {A} (f : Parser A) : strictly_shrinks f -> shrinks (many0 f).
Proof. intros Hf. apply run_many_shrinks; auto. Qed.

Lemma many1_strict {A} (f : Parser A) : strictly_shrinks f -> strictly_shrinks (many1 f).
Proof.
  intros Hf i r v H. unfold many1 in H.
  destruct (f i) as [i1 o| |] eqn:E; try discriminate.
  apply Hf in E. apply (run_many_shrinks f [o] Hf) in H. lia.
Qed.

#[local] Hint Resolve many0_shrinks many1_strict : lens.

(** ** Consumption of the parsers of lib.rs *)

Ltac shrink_proof X :=
  intros ? ? ? H; unfold X in H; inv_binds; length_facts; simpl in *; lia.

Lemma skip_one_line_shrinks : shrinks skip_one_line.
Proof. shrink_proof skip_one_line. Qed.
#[local] Hint Resolve skip_one_line_shrinks : lens.

Lemma skip_one_line_strict : strictly_shrinks skip_one_line.
Proof. shrink_proof skip_one_line. Qed.

Lemma skip_empty_line_strict : strictly_shrinks skip_empty_line.
Proof. shrink_proof skip_empty_line. Qed.
#[local] Hint Resolve skip_empty_line_strict : lens.

Lemma parse_footer_strict : strictly_shrinks parse_footer.
Proof. shrink_proof parse_footer. Qed.
#[local] Hint Resolve parse_footer_strict : lens.

Lemma crispr_header_tuple_strict : strictly_shrinks crispr_header_tuple.
Proof. shrink_proof crispr_header_tuple. Qed.
#[local] Hint Resolve crispr_header_tuple_strict : lens.

(** The parsers that post-process the value of a [tuple] keep its
    remaining input. *)
Ltac post_tuple_proof X T :=
  intros i r v H; unfold X in H;
  destruct (T i) as [rem val| |] eqn:E; try discriminate;
  repeat match type of val with prod _ _ => let a := fresh in let b := fresh in
           destruct val as [a b] end;
  repeat match goal with v : prod _ _ |- _ => let a := fresh in let b := fresh in
           destruct v as [a b] end;
  apply panic_or_Done in H; destruct H as [-> _];
  length_facts; lia.

Lemma parse_crispr_order_and_coordinates_strict :
  strictly_shrinks parse_crispr_order_and_coordinates.
Proof. post_tuple_proof parse_crispr_order_and_coordinates crispr_header_tuple. Qed.
#[local] Hint Resolve parse_crispr_order_and_coordinates_strict : lens.

Lemma accession_line_tuple_strict : strictly_shrinks accession_line_tuple.
Proof. shrink_proof accession_line_tuple. Qed.
#[local] Hint Resolve accession_line_tuple_strict : lens.

Lemma parse_accession_line_strict : strictly_shrinks parse_accession_line.
Proof. post_tuple_proof parse_accession_line accession_line_tuple. Qed.
#[local] Hint Resolve parse_accession_line_strict : lens.

Lemma repeat_only_tuple_strict : strictly_shrinks repeat_only_tuple.
Proof. shrink_proof repeat_only_tuple. Qed.
#[local] Hint Resolve repeat_only_tuple_strict : lens.

Lemma repeat_with_spacer_tuple_strict : strictly_shrinks repeat_with_spacer_tuple.
Proof. shrink_proof repeat_with_spacer_tuple. Qed.
#[local] Hint Resolve repeat_with_spacer_tuple_strict : lens.

Lemma parse_repeat_only_strict : strictly_shrinks parse_repeat_only.
Proof. post_tuple_proof parse_repeat_only repeat_only_tuple. Qed.
#[local] Hint Resolve parse_repeat_only_strict : lens.

Lemma parse_repeat_with_spacer_strict : strictly_shrinks parse_repeat_with_spacer.
Proof. post_tuple_proof parse_repeat_with_spacer repeat_with_spacer_tuple. Qed.
#[local] Hint Resolve parse_repeat_with_spacer_strict : lens.

Lemma parse_repeat_spacer_line_strict : strictly_shrinks parse_repeat_spacer_line.
Proof.
  intros i r v H. unfold parse_repeat_spacer_line, alt in H.
  destruct (parse_repeat_with_spacer i) eqn:E.
  - inversion H; subst. eapply parse_repeat_with_spacer_strict; eauto.
  - eapply parse_repeat_only_strict; eauto.
  - discriminate.
Qed.
#[local] Hint Resolve parse_repeat_spacer_line_strict : lens.

Lemma parse_array_strict : strictly_shrinks parse_array.
Proof. shrink_proof parse_array. Qed.
#[local] Hint Resolve parse_array_strict : lens.

Lemma parse_contig_arrays_strict : strictly_shrinks parse_contig_arrays.
Proof. shrink_proof parse_contig_arrays. Qed.
#[local] Hint Resolve parse_contig_arrays_strict : lens.

(** ** Shapes of successful primitive parses *)

Lemma tag_Done t i r v : tag t i = Done r v -> i = (t ++ r)%string /\ v = t.
Proof.
  unfold tag. destruct (strip_prefix t i) eqn:E; intros H; inversion H; subst.
  split; auto. apply strip_prefix_app; auto.
Qed.

Lemma char_Done c i r v : char c i = Done r v -> i = String c r /\ v = c.
Proof.
  destruct i as [|d i]; simpl; intros H; [discriminate|].
  destruct (Ascii.eqb c d) eqn:E; inversion H; subst.
  apply Ascii.eqb_eq in E; subst; auto.
Qed.

Lemma take_while1_Done p i r v :
  take_while1 p i = Done r v -> i = (v ++ r)%string /\ v <> EmptyString.
Proof.
  unfold take_while1. destruct (split_while p i) as [a b] eqn:E.
  apply split_while_app in E; subst.
  destruct a; intros H; inversion H; subst; split; auto; discriminate.
Qed.

Lemma sub_usize_Some a b c : sub_usize a b = Some c -> b <= a /\ c = a - b.
Proof.
  unfold sub_usize. destruct (a <? b) eqn:E; intros H; inversion H; subst.
  apply Z.ltb_ge in E. lia.
Qed.

Lemma add_usize_Some a b c : add_usize a b = Some c -> c = a + b /\ a + b < usize_bound.
Proof.
  unfold add_usize. destruct (a + b <? usize_bound) eqn:E; intros H; inversion H; subst.
  apply Z.ltb_lt in E. lia.
Qed.

Lemma sub_usize_zero_one : sub_usize 0 1 = None.
Proof. reflexivity. Qed.

(** Turns the successful primitive steps in the context into equations on
    the input and substitutes them. *)
Ltac decompose_prims :=
  repeat match goal with
  | H : tag _ _ = Done _ _ |- _ => apply tag_Done in H; destruct H as [? ?]; subst
  | H : char _ _ = Done _ _ |- _ => apply char_Done in H; destruct H as [? ?]; subst
  | H : digit1 _ = Done _ _ |- _ => apply take_while1_Done in H; destruct H as [? ?]; subst
  | H : multispace1 _ = Done _ _ |- _ => apply take_while1_Done in H; destruct H as [? ?]; subst
  | H : alpha1 _ = Done _ _ |- _ => apply take_while1_Done in H; destruct H as [? ?]; subst
  end.

(** Splits the [let?] steps of a computation that returned [Some]. *)
Ltac inv_opts :=
  repeat match goal with
  | H : match ?o with Some _ => _ | None => None end = Some _ |- _ =>
      let E := fresh "E" in destruct o eqn:E; [|discriminate]
  | H : Some _ = Some _ |- _ => injection H; clear H; intros; subst
  | H : sub_usize _ _ = Some _ |- _ => apply sub_usize_Some in H; destruct H as [? ?]; subst
  | H : add_usize _ _ = Some _ |- _ => apply add_usize_Some in H; destruct H as [? ?]; subst
  end.

Lemma crispr_header_tuple_Done s rest raw_order raw_start raw_end :
  crispr_header_tuple s = Done rest (raw_order, raw_start, raw_end) ->
  exists ws, s = ("CRISPR " ++ raw_order ++ ws ++ "Range: " ++ raw_start ++ " - "
                  ++ raw_end ++ rest)%string.
Proof.
  unfold crispr_header_tuple. intros H. inv_binds. decompose_prims.
  eexists. simpl. reflexivity.
Qed.

Lemma many1_cons {A} (f : Parser A) i r l :
  strictly_shrinks f -> many1 f i = Done r l -> exists o l', l = o :: l'.
Proof.
  intros Hf H. unfold many1 in H.
  destruct (f i) as [i1 o| |] eqn:E; try discriminate.
  destruct (run_many_result f [o] i1 Hf) as [R | [l' [r' [R _]]]];
    rewrite R in H; inversion H; subst. simpl. eauto.
Qed.

Lemma skip_empty_line_Done s r v :
  skip_empty_line s = Done r v -> s = String LF r \/ s = String CR (String LF r).
Proof.
  unfold skip_empty_line. intros H. inv_binds. unfold line_ending in *.
  destruct s as [|c s1]; [discriminate|].
  destruct (Ascii.eqb c LF) eqn:E1.
  - apply Ascii.eqb_eq in E1; subst. inv_binds. auto.
  - destruct (Ascii.eqb c CR) eqn:E2; [|discriminate].
    apply Ascii.eqb_eq in E2; subst.
    destruct s1 as [|d s2]; [discriminate|].
    destruct (Ascii.eqb d LF) eqn:E3; [|discriminate].
    apply Ascii.eqb_eq in E3; subst. inv_binds. auto.
Qed.

Lemma parse_repeat_with_spacer_kind i r v :
  parse_repeat_with_spacer i = Done r v -> exists x, v = WithSpacer x.
Proof.
  unfold parse_repeat_with_spacer.
  destruct (repeat_with_spacer_tuple i) as [rem [[raw_start repeat] spacer]| |];
    intros H; try discriminate.
  apply panic_or_Done in H; destruct H as [_ H]. inv_opts. eauto.
Qed.

(** ** Claims *)

(** C9: [parse] of the empty input succeeds with no contigs. *)
Theorem parse_empty_input : parse EmptyString = ParseOk [].
Proof. reflexivity. Qed.

(** C6: the single-contig report [Sequence 'X' (100 bp)] with the array
    [CRISPR 1 Range: 10 - 50], a two-sequence row at position 10 (repeat 29,
    spacer 10 bytes) and a terminal row at position 49 (repeat 1 byte)
    parses to one contig [X] of 100 bp with one array of order 0, start 9,
    end 50, whose two entries carry the offsets derived from the rows. *)
Theorem parse_single_contig_doc : parse single_contig_doc = ParseOk single_contig_expected.
Proof. vm_compute. reflexivity. Qed.

(** C1 (counterexample): an accession line missing its closing quote, and
    trailing text after a complete contig, both give [Ok]: the first with no
    contigs, the second with the contig before the residue. *)
Lemma parse_malformed_is_ok :
  parse "Sequence 'X (100 bp)"%string = ParseOk [] /\
  parse (single_contig_doc ++ "junk")%string = ParseOk single_contig_expected.
Proof. split; vm_compute; reflexivity. Qed.

(** C1 (amended): [parse] never returns its error result.  When it
    returns [Ok cs], the contigs [cs] were matched one after the other from
    the start of the input and no contig matches at the text that follows
    them, which is dropped. *)
Theorem parse_ok_up_to_first_mismatch :
  forall s,
  parse s <> ParseErr /\
  (forall cs, parse s = ParseOk cs ->
   exists r, chain parse_contig_arrays s cs r /\ parse_contig_arrays r = Error).
Proof.
  intros s. unfold parse, many0.
  destruct (run_many_result parse_contig_arrays [] s parse_contig_arrays_strict)
    as [E | [l [r [E [C F]]]]]; rewrite E; split; try discriminate.
  intros cs H. injection H as <-. exists r. simpl. auto.
Qed.

Lemma parse_ok_up_to_first_mismatch_witness :
  parse (single_contig_doc ++ "junk")%string = ParseOk single_contig_expected /\
  exists r, chain parse_contig_arrays (single_contig_doc ++ "junk")%string
              single_contig_expected r /\ parse_contig_arrays r = Error.
Proof.
  assert (E : parse (single_contig_doc ++ "junk")%string = ParseOk single_contig_expected)
    by (vm_compute; reflexivity).
  split; [exact E|].
  exact (proj2 (parse_ok_up_to_first_mismatch _) _ E).
Defined.

(** C10 (counterexample): a report whose array ordinal is 0 makes [parse]
    panic: it neither returns a result nor its error. *)
Lemma parse_zero_order_panics : parse zero_order_doc = ParsePanic.
Proof. vm_compute. reflexivity. Qed.

(** C10 (amended): on every input the contig loop of [parse] returns
    within one more iteration than the input has bytes, and [parse] either
    returns [Ok] or panics; it never returns [Err]. *)
Theorem parse_terminates :
  forall s,
  many_loop parse_contig_arrays (S (String.length s)) [] s <> None /\
  (parse s = ParsePanic \/ exists cs, parse s = ParseOk cs).
Proof.
  intros s. split.
  - apply many_loop_halts; auto with lens.
  - unfold parse, many0.
    destruct (run_many_result parse_contig_arrays [] s parse_contig_arrays_strict)
      as [E | [l [r [E _]]]]; rewrite E; eauto.
Qed.

(** C3: a successfully parsed range header [CRISPR n ... Range: A - B]
    gives [(n - 1, A - 1, B)], with [n], [A], [B] the values of its digit
    runs; [CRISPR 1] gives order 0 and [CRISPR 4] gives order 3. *)
Theorem crispr_header_fields :
  (forall s rest order start end_,
   parse_crispr_order_and_coordinates s = Done rest (order, start, end_) ->
   exists raw_order ws raw_start raw_end n a,
     crispr_header_tuple s = Done rest (raw_order, raw_start, raw_end) /\
     s = ("CRISPR " ++ raw_order ++ ws ++ "Range: " ++ raw_start ++ " - "
          ++ raw_end ++ rest)%string /\
     parse_usize raw_order = Some n /\ parse_usize raw_start = Some a /\
     parse_usize raw_end = Some end_ /\ order = n - 1 /\ start = a - 1) /\
  parse_crispr_order_and_coordinates "CRISPR 1   Range: 1214 - 1776"%string
    = Done EmptyString (0, 1213, 1776) /\
  parse_crispr_order_and_coordinates "CRISPR 4   Range: 1214 - 1776"%string
    = Done EmptyString (3, 1213, 1776).
Proof.
  split; [|split; reflexivity].
  intros s rest order start end_ H.
  unfold parse_crispr_order_and_coordinates in H.
  destruct (crispr_header_tuple s) as [rem [[raw_order raw_start] raw_end]| |] eqn:T;
    try discriminate.
  apply panic_or_Done in H; destruct H as [-> H]. inv_opts.
  destruct (crispr_header_tuple_Done _ _ _ _ _ T) as [ws Hs].
  exists raw_order, ws, raw_start, raw_end. do 2 eexists.
  repeat split; eauto.
Qed.

Lemma crispr_header_fields_witness :
  exists raw_order ws raw_start raw_end n a,
    crispr_header_tuple "CRISPR 2 Range: 4 - 1413"%string
      = Done EmptyString (raw_order, raw_start, raw_end) /\
    "CRISPR 2 Range: 4 - 1413"%string
      = ("CRISPR " ++ raw_order ++ ws ++ "Range: " ++ raw_start ++ " - "
         ++ raw_end ++ EmptyString)%string /\
    parse_usize raw_order = Some n /\ parse_usize raw_start = Some a /\
    parse_usize raw_end = Some 1413 /\ 1 = n - 1 /\ 3 = a - 1.
Proof.
  apply (proj1 crispr_header_fields). reflexivity.
Defined.

(** The offsets of a parsed row [r], read from the row [s] it came from. *)
Definition row_offsets_spec (s rest : string) (r : Repeat) : Prop :=
  match r with
  | WithSpacer x =>
      exists raw_start P,
        repeat_with_spacer_tuple s
          = Done rest (raw_start, RepeatSpacer.repeat x, RepeatSpacer.spacer x) /\
        parse_usize raw_start = Some P /\
        RepeatSpacer.repeat_start x = P - 1 /\
        RepeatSpacer.repeat_end x = P - 1 + len (RepeatSpacer.repeat x) /\
        RepeatSpacer.spacer_start x = P - 1 + len (RepeatSpacer.repeat x) /\
        RepeatSpacer.spacer_end x
          = P - 1 + len (RepeatSpacer.repeat x) + len (RepeatSpacer.spacer x) /\
        RepeatSpacer.spacer_start x = RepeatSpacer.repeat_end x /\
        RepeatSpacer.start x = P - 1 /\
        RepeatSpacer.end_ x = RepeatSpacer.spacer_end x
  | WithoutSpacer x =>
      exists raw_start P,
        repeat_only_tuple s = Done rest (raw_start, RepeatOnly.repeat x) /\
        parse_usize raw_start = Some P /\
        RepeatOnly.start x = P - 1 /\
        RepeatOnly.end_ x - RepeatOnly.start x = len (RepeatOnly.repeat x)
  end.

(** C2: every successfully parsed row.  A two-sequence row with position
    [P], repeat [R] and spacer [S] gives [repeat_start = P - 1],
    [repeat_end = P - 1 + |R|], [spacer_start = P - 1 + |R|],
    [spacer_end = P - 1 + |R| + |S|], hence [spacer_start = repeat_end]
    (and [start = P - 1], [end = spacer_end]); a terminal row with position
    [P] and repeat [R] is a [WithoutSpacer] entry, which has no spacer
    fields, with [start = P - 1] and [end - start = |R|]. *)
Theorem row_offsets :
  forall s rest r,
  parse_repeat_spacer_line s = Done rest r -> row_offsets_spec s rest r.
Proof.
  intros s rest r H. unfold parse_repeat_spacer_line, alt in H.
  destruct (parse_repeat_with_spacer s) as [rem v| |] eqn:W; try discriminate.
  - injection H as <- <-.
    unfold parse_repeat_with_spacer in W.
    destruct (repeat_with_spacer_tuple s) as [rem' [[raw_start repeat] spacer]| |] eqn:T;
      try discriminate.
    apply panic_or_Done in W; destruct W as [-> W]. inv_opts. unfold row_offsets_spec.
    exists raw_start, z. repeat split; simpl; auto; lia.
  - unfold parse_repeat_only in H.
    destruct (repeat_only_tuple s) as [rem' [raw_start repeat]| |] eqn:T;
      try discriminate.
    apply panic_or_Done in H; destruct H as [-> H]. inv_opts. unfold row_offsets_spec.
    exists raw_start, z. repeat split; simpl; auto; lia.
Qed.

Lemma row_offsets_witness :
  let row := ("10723" ++ tab ++ tab ++ "CAAGTGCACCAACCAATCTCACCACCTCA" ++ tab
              ++ "CCATCTCACCACCTCTCAGGGGGTGCAGTTGTCT" ++ tab ++ "[ 29, 34 ]"
              ++ String LF EmptyString)%string in
  let r := WithSpacer (RepeatSpacer.mk "CAAGTGCACCAACCAATCTCACCACCTCA"
                         "CCATCTCACCACCTCTCAGGGGGTGCAGTTGTCT"
                         10722 10785 10751 10785 10722 10751)%string in
  parse_repeat_spacer_line row = Done EmptyString r /\ row_offsets_spec row EmptyString r.
Proof.
  intros row r.
  assert (E : parse_repeat_spacer_line row = Done EmptyString r) by (vm_compute; reflexivity).
  split; [exact E|]. exact (row_offsets row EmptyString r E).
Defined.

(** C8: a header whose ordinal or range start is 0, and a row whose
    position is 0, make the parser panic on the unchecked decrement: no
    error result is returned for them. *)
Theorem zero_index_panics :
  (forall s rest raw_order raw_start raw_end,
     crispr_header_tuple s = Done rest (raw_order, raw_start, raw_end) ->
     parse_usize raw_order = Some 0 \/ parse_usize raw_start = Some 0 ->
     parse_crispr_order_and_coordinates s = Panic) /\
  (forall s rest raw_start repeat spacer,
     repeat_with_spacer_tuple s = Done rest (raw_start, repeat, spacer) ->
     parse_usize raw_start = Some 0 ->
     parse_repeat_spacer_line s = Panic) /\
  (forall s rest raw_start repeat,
     repeat_with_spacer_tuple s = Error ->
     repeat_only_tuple s = Done rest (raw_start, repeat) ->
     parse_usize raw_start = Some 0 ->
     parse_repeat_spacer_line s = Panic).
Proof.
  split; [|split].
  - intros s rest raw_order raw_start raw_end T Z0.
    unfold parse_crispr_order_and_coordinates. rewrite T. simpl.
    destruct Z0 as [Z0 | Z0].
    + rewrite Z0. reflexivity.
    + destruct (parse_usize raw_order) as [o|]; [|reflexivity].
      destruct (sub_usize o 1); [|reflexivity].
      rewrite Z0. reflexivity.
  - intros s rest raw_start repeat spacer T Z0.
    unfold parse_repeat_spacer_line, alt, parse_repeat_with_spacer.
    rewrite T, Z0. reflexivity.
  - intros s rest raw_start repeat T1 T2 Z0.
    unfold parse_repeat_spacer_line, alt, parse_repeat_with_spacer, parse_repeat_only.
    rewrite T1, T2, Z0. reflexivity.
Qed.

Lemma zero_index_panics_witness :
  parse_crispr_order_and_coordinates "CRISPR 0 Range: 10 - 50"%string = Panic /\
  parse_crispr_order_and_coordinates "CRISPR 1 Range: 0 - 50"%string = Panic /\
  parse_repeat_spacer_line ("0 ACGT GG" ++ String LF EmptyString)%string = Panic /\
  parse_repeat_spacer_line ("0 ACGT" ++ String LF EmptyString)%string = Panic.
Proof.
  destruct zero_index_panics as [Hh [Hw Ho]].
  split; [|split; [|split]].
  - apply (Hh _ EmptyString "0"%string "10"%string "50"%string); [reflexivity | left; reflexivity].
  - apply (Hh _ EmptyString "1"%string "0"%string "50"%string); [reflexivity | right; reflexivity].
  - apply (Hw _ EmptyString "0"%string "ACGT"%string "GG"%string); reflexivity.
  - apply (Ho _ EmptyString "0"%string "ACGT"%string); reflexivity.
Defined.

(** C4: the docstrings of [parse_repeat_only], [RepeatOnly] and
    [Repeat::WithoutSpacer] say a repeat without spacer is always the last
    repeat of its array, but nothing in [parse_array] enforces it: a report
    whose array has a row without spacer followed by a row with one parses,
    and its array lists the [WithoutSpacer] entry first. *)
Theorem spacerless_row_parsed_before_last :
  parse spacerless_first_row_doc = ParseOk [spacerless_first_row_contig] /\
  (Array.repeat_spacers spacerless_first_row_array
   = [ WithoutSpacer (RepeatOnly.mk "ACGT"%string 0 4);
       WithSpacer (RepeatSpacer.mk "ACGT"%string "GG"%string 4 10 8 10 4 8) ]) /\
  without_spacer_only_last (Array.repeat_spacers spacerless_first_row_array) = false.
Proof. split; [vm_compute; reflexivity|split; reflexivity]. Qed.

(** C5 (counterexample): the table of an array is rejected by
    [parse_array] unless a line ending precedes it. *)
Lemma array_needs_leading_line_ending :
  parse_array array_text = Error /\
  parse_array (String LF array_text) = Done EmptyString single_array_expected.
Proof. split; vm_compute; reflexivity. Qed.

(** C5 (amended): every step of [parse_array] is required, the leading
    line ending included: a successful parse starts with ["\n"] or
    ["\r\n"] and goes through the line ending, the range header, a line
    ending, two discarded lines, one or more rows and two discarded lines,
    in this order. *)
Theorem parse_array_steps :
  forall s rest a,
  parse_array s = Done rest a ->
  (exists s1, s = String LF s1 \/ s = String CR (String LF s1)) /\
  exists s1 s2 s3 s4 s5 s6 s7,
    skip_empty_line s = Done s1 tt /\
    parse_crispr_order_and_coordinates s1
      = Done s2 (Array.order a, Array.start a, Array.end_ a) /\
    skip_empty_line s2 = Done s3 tt /\
    skip_one_line s3 = Done s4 tt /\
    skip_one_line s4 = Done s5 tt /\
    many1 parse_repeat_spacer_line s5 = Done s6 (Array.repeat_spacers a) /\
    skip_one_line s6 = Done s7 tt /\
    skip_one_line s7 = Done rest tt.
Proof.
  intros s rest a H. unfold parse_array in H. inv_binds.
  repeat match goal with u : unit |- _ => destruct u end.
  split.
  - match goal with
    | He : skip_empty_line s = Done _ _ |- _ => apply skip_empty_line_Done in He
    end.
    eauto.
  - simpl. do 7 eexists. repeat split; eassumption.
Qed.

Lemma parse_array_steps_witness :
  (exists s1, String LF array_text = String LF s1 \/
              String LF array_text = String CR (String LF s1)) /\
  exists s1 s2 s3 s4 s5 s6 s7,
    skip_empty_line (String LF array_text) = Done s1 tt /\
    parse_crispr_order_and_coordinates s1 = Done s2 (0, 9, 50) /\
    skip_empty_line s2 = Done s3 tt /\
    skip_one_line s3 = Done s4 tt /\
    skip_one_line s4 = Done s5 tt /\
    many1 parse_repeat_spacer_line s5 = Done s6 (Array.repeat_spacers single_array_expected) /\
    skip_one_line s6 = Done s7 tt /\
    skip_one_line s7 = Done EmptyString tt.
Proof.
  apply (parse_array_steps (String LF array_text) EmptyString single_array_expected).
  vm_compute. reflexivity.
Defined.

(** C7: with a length field that is not a digit run, the accession line
    parser does not fail with an error: [take_until(" ")] accepts the
    field and the [unwrap] of its conversion panics, and so does [parse]
    on a report that starts with such a line. *)
Theorem accession_non_numeric_bp_panics :
  parse_accession_line "Sequence 'X' (abc bp)"%string = Panic /\
  parse non_numeric_bp_doc = ParsePanic.
Proof. split; vm_compute; reflexivity. Qed.

(** ** Further properties of lib.rs *)

Open Scope string_scope.

(** *** Scanning lemmas *)

Lemma strip_prefix_app_self t r : strip_prefix t (t ++ r) = Some r.
Proof. induction t as [|c t IH]; simpl; [reflexivity|]. rewrite Ascii.eqb_refl. exact IH. Qed.

Lemma tag_app t r : tag t (t ++ r) = Done r t.
Proof. unfold tag. rewrite strip_prefix_app_self. reflexivity. Qed.

Lemma split_while_stop p d rest :
  all_chars p d = true -> starts_with p rest = false ->
  split_while p (d ++ rest) = (d, rest).
Proof.
  induction d as [|c d IH]; simpl; intros Hd Hr.
  - destruct rest as [|c rest]; simpl in *; [reflexivity|]. rewrite Hr. reflexivity.
  - apply andb_true_iff in Hd as [Hc Hd]. rewrite Hc, IH; auto.
Qed.

Lemma take_while1_stop p d rest :
  d <> EmptyString -> all_chars p d = true -> starts_with p rest = false ->
  take_while1 p (d ++ rest) = Done rest d.
Proof.
  intros Hne Hd Hr. unfold take_while1. rewrite split_while_stop by auto.
  destruct d; [congruence|reflexivity].
Qed.

Lemma split_while_all p s a b : split_while p s = (a, b) -> all_chars p a = true.
Proof.
  revert a b; induction s as [|c s IH]; intros a b H; simpl in H.
  - inversion H; reflexivity.
  - destruct (p c) eqn:Pc.
    + destruct (split_while p s) as [a' b'] eqn:E. inversion H; subst.
      simpl. rewrite Pc. eauto.
    + inversion H; reflexivity.
Qed.

Lemma take_while1_all p i r v : take_while1 p i = Done r v -> all_chars p v = true.
Proof.
  unfold take_while1. destruct (split_while p i) as [a b] eqn:E.
  apply split_while_all in E. destruct a; intros H; inversion H; subst; auto.
Qed.

Lemma starts_with_app p d x : starts_with p d = true -> starts_with p (d ++ x) = true.
Proof. destruct d; simpl; auto; discriminate. Qed.

(** A non-empty run of [q]-bytes does not start with a [p]-byte when no
    byte satisfies both. *)
Lemma starts_with_run p q d x :
  d <> EmptyString -> all_chars q d = true ->
  (forall c, q c = true -> p c = false) ->
  starts_with p (d ++ x) = false.
Proof.
  destruct d as [|c d]; [congruence|]. simpl. intros _ H Hpq.
  apply andb_true_iff in H as [Hc _]. auto.
Qed.

Ltac all_ascii :=
  intros c; destruct c as [[] [] [] [] [] [] [] []]; vm_compute; try reflexivity;
  discriminate.

Lemma alpha_not_multispace c : is_alpha c = true -> is_multispace c = false.
Proof. revert c; all_ascii. Qed.
Lemma digit_not_multispace c : is_digit c = true -> is_multispace c = false.
Proof. revert c; all_ascii. Qed.
Lemma alpha_not_digit c : is_alpha c = true -> is_digit c = false.
Proof. revert c; all_ascii. Qed.
Lemma multispace_not_alpha c : is_multispace c = true -> is_alpha c = false.
Proof. revert c; all_ascii. Qed.
Lemma multispace_not_digit c : is_multispace c = true -> is_digit c = false.
Proof. revert c; all_ascii. Qed.
Lemma alpha_not_line_terminator c : is_alpha c = true -> is_line_terminator c = false.
Proof. revert c; all_ascii. Qed.
Lemma digit_not_plus c : is_digit c = true -> Ascii.eqb c "+"%char = false.
Proof. revert c; all_ascii. Qed.

Lemma split_line_stop l r :
  all_chars (fun c => negb (is_line_terminator c)) l = true ->
  split_line (l ++ String LF r) = Some (l, String LF r).
Proof.
  induction l as [|c l IH]; simpl; intros H; [reflexivity|].
  apply andb_true_iff in H as [Hc H]. unfold is_line_terminator in Hc.
  destruct (Ascii.eqb c LF), (Ascii.eqb c CR); try discriminate. rewrite IH; auto.
Qed.

Lemma split_line_crlf l r :
  all_chars (fun c => negb (is_line_terminator c)) l = true ->
  split_line (l ++ String CR (String LF r)) = Some (l, String CR (String LF r)).
Proof.
  induction l as [|c l IH]; simpl; intros H; [reflexivity|].
  apply andb_true_iff in H as [Hc H]. unfold is_line_terminator in Hc.
  destruct (Ascii.eqb c LF), (Ascii.eqb c CR); try discriminate. rewrite IH; auto.
Qed.

Lemma split_line_none l :
  all_chars (fun c => negb (is_line_terminator c)) l = true ->
  split_line l = Some (l, EmptyString).
Proof.
  induction l as [|c l IH]; simpl; intros H; [reflexivity|].
  apply andb_true_iff in H as [Hc H]. unfold is_line_terminator in Hc.
  destruct (Ascii.eqb c LF), (Ascii.eqb c CR); try discriminate. rewrite IH; auto.
Qed.

Lemma find_split_char c a r :
  all_chars (fun d => negb (Ascii.eqb d c)) a = true ->
  find_split (String c EmptyString) (a ++ String c r) = Some (a, String c r).
Proof.
  induction a as [|d a IH]; simpl; intros H.
  - rewrite Ascii.eqb_refl. reflexivity.
  - apply andb_true_iff in H as [Hd H].
    destruct (Ascii.eqb c d) eqn:E.
    + apply Ascii.eqb_eq in E; subst. rewrite Ascii.eqb_refl in Hd. discriminate.
    + rewrite IH; auto.
Qed.

Lemma find_split_char_free c s a b :
  find_split (String c EmptyString) s = Some (a, b) ->
  all_chars (fun d => negb (Ascii.eqb d c)) a = true.
Proof.
  revert a b; induction s as [|d s IH]; intros a b H; simpl in H; [discriminate|].
  destruct (Ascii.eqb c d) eqn:E.
  - inversion H; reflexivity.
  - destruct (find_split _ s) as [[a' b']|] eqn:F; inversion H; subst.
    simpl. rewrite Ascii.eqb_sym, E. simpl. eauto.
Qed.

Lemma find_split_char_app c a r :
  all_chars (fun d => negb (Ascii.eqb d c)) a = true ->
  find_split (String c EmptyString) (a ++ (String c EmptyString ++ r))
  = Some (a, String c EmptyString ++ r).
Proof. exact (find_split_char c a r). Qed.

Lemma split_line_lone_cr l c r :
  all_chars (fun c => negb (is_line_terminator c)) l = true ->
  Ascii.eqb c LF = false ->
  split_line (l ++ String CR (String c r)) = None.
Proof.
  induction l as [|d l IH]; simpl; intros H Hc.
  - rewrite Hc. reflexivity.
  - apply andb_true_iff in H as [Hd H]. unfold is_line_terminator in Hd.
    destruct (Ascii.eqb d LF), (Ascii.eqb d CR); try discriminate. rewrite IH; auto.
Qed.

Lemma split_line_final_cr l :
  all_chars (fun c => negb (is_line_terminator c)) l = true ->
  split_line (l ++ String CR EmptyString) = None.
Proof.
  induction l as [|d l IH]; simpl; intros H; [reflexivity|].
  apply andb_true_iff in H as [Hd H]. unfold is_line_terminator in Hd.
  destruct (Ascii.eqb d LF), (Ascii.eqb d CR); try discriminate. rewrite IH; auto.
Qed.

(** *** Line primitives *)

Lemma skip_one_line_lf l r :
  all_chars (fun c => negb (is_line_terminator c)) l = true ->
  skip_one_line (l ++ String LF r) = Done r tt.
Proof. intros H. unfold skip_one_line, not_line_ending. rewrite split_line_stop by exact H. reflexivity. Qed.

(** [skip_one_line] discards exactly one line, whatever its text, up to and
    including its ["\n"] or ["\r\n"] terminator. *)
Theorem skip_one_line_discards_line :
  forall l r,
  all_chars (fun c => negb (is_line_terminator c)) l = true ->
  skip_one_line (l ++ String LF r) = Done r tt /\
  skip_one_line (l ++ String CR (String LF r)) = Done r tt.
Proof.
  intros l r H. unfold skip_one_line, not_line_ending.
  rewrite split_line_stop, split_line_crlf by exact H. split; reflexivity.
Qed.

Lemma skip_one_line_discards_line_witness :
  skip_one_line ("Repeats: 3" ++ String LF "rest") = Done "rest" tt /\
  skip_one_line ("Repeats: 3" ++ String CR (String LF "rest")) = Done "rest" tt.
Proof. apply skip_one_line_discards_line. reflexivity. Defined.

(** [skip_one_line] fails with an error on a last line without
    terminator, and on a line whose first ['\r'] is not followed by
    ['\n']. *)
Theorem skip_one_line_needs_terminator :
  forall l,
  all_chars (fun c => negb (is_line_terminator c)) l = true ->
  skip_one_line l = Error /\
  skip_one_line (l ++ String CR EmptyString) = Error /\
  (forall c r, Ascii.eqb c LF = false -> skip_one_line (l ++ String CR (String c r)) = Error).
Proof.
  intros l H. unfold skip_one_line, not_line_ending.
  rewrite split_line_none, split_line_final_cr by exact H. simpl.
  split; [|split]; [ | reflexivity | ].
  - destruct l; reflexivity.
  - intros c r Hc. rewrite split_line_lone_cr by auto. reflexivity.
Qed.

Lemma skip_one_line_needs_terminator_witness :
  skip_one_line "Time to find repeats: 3 ms" = Error /\
  skip_one_line ("Time to find repeats: 3 ms" ++ String CR EmptyString) = Error /\
  (forall c r, Ascii.eqb c LF = false ->
   skip_one_line ("Time to find repeats: 3 ms" ++ String CR (String c r)) = Error).
Proof. apply skip_one_line_needs_terminator. reflexivity. Defined.

(** [parse_footer] consumes a blank line, one line of any text (the
    timing line), and two more blank lines. *)
Theorem parse_footer_shape :
  forall l r,
  all_chars (fun c => negb (is_line_terminator c)) l = true ->
  parse_footer (String LF (l ++ String LF (String LF (String LF r)))) = Done r tt.
Proof.
  intros l r H. unfold parse_footer. simpl bind at 1.
  rewrite (skip_one_line_lf l _ H). reflexivity.
Qed.

Lemma parse_footer_shape_witness :
  parse_footer (String LF ("Time to find repeats: 3 ms"
                 ++ String LF (String LF (String LF "Sequence")))) = Done "Sequence" tt.
Proof. apply parse_footer_shape. reflexivity. Defined.

(** *** Header and accession line *)

Lemma bind_tag {B} t r (k : string -> string -> IResult B) :
  bind (tag t (t ++ r)) k = k r t.
Proof. rewrite tag_app. reflexivity. Qed.

Lemma bind_char {B} c x (k : string -> ascii -> IResult B) :
  bind (char c (String c EmptyString ++ x)) k = k x c.
Proof. simpl. rewrite Ascii.eqb_refl. reflexivity. Qed.

Lemma run_nonempty p d : match d with EmptyString => false | _ => all_chars p d end = true ->
  d <> EmptyString /\ all_chars p d = true.
Proof. destruct d; [discriminate|]. split; [discriminate|assumption]. Qed.

Lemma bind_take_while1 {B} p d rest (k : string -> string -> IResult B) :
  match d with EmptyString => false | _ => all_chars p d end = true ->
  starts_with p rest = false ->
  bind (take_while1 p (d ++ rest)) k = k rest d.
Proof.
  intros Hd Hr. apply run_nonempty in Hd as [Hne Hd].
  rewrite take_while1_stop by auto. reflexivity.
Qed.

Lemma run_starts p q d x :
  match d with EmptyString => false | _ => all_chars q d end = true ->
  (forall c, q c = true -> p c = false) ->
  starts_with p (d ++ x) = false.
Proof. intros H Hpq. apply run_nonempty in H as [H1 H2]. apply starts_with_run with q; auto. Qed.

Lemma sub_usize_pos a : 1 <= a -> sub_usize a 1 = Some (a - 1).
Proof. intros H. unfold sub_usize. destruct (Z.ltb a 1) eqn:E; [apply Z.ltb_lt in E; lia|reflexivity]. Qed.

Lemma crispr_header_tuple_text dn ws da db rest :
  decimal_run dn = true -> space_run ws = true -> decimal_run da = true ->
  decimal_run db = true -> starts_with is_digit rest = false ->
  crispr_header_tuple ("CRISPR" ++ " " ++ dn ++ ws ++ "Range:" ++ " " ++ da ++ " - "
                       ++ db ++ rest) = Done rest (dn, da, db).
Proof.
  intros Hn Hw Ha Hb Hr. unfold crispr_header_tuple, digit1, multispace1.
  rewrite bind_tag; cbv beta. rewrite bind_char; cbv beta.
  rewrite bind_take_while1 by (auto; apply run_starts with is_multispace; auto;
                               exact multispace_not_digit). cbv beta.
  rewrite bind_take_while1 by (auto; reflexivity). cbv beta.
  rewrite bind_tag; cbv beta. rewrite bind_char; cbv beta.
  rewrite bind_take_while1 by (auto; reflexivity). cbv beta.
  rewrite bind_tag; cbv beta.
  rewrite bind_take_while1 by auto. reflexivity.
Qed.

(** The range header parser reads [CRISPR n<ws>Range: A - B] back as
    [(n - 1, A - 1, B)] for any whitespace run, any positive [n] and [A]
    and any [B] (it does not compare [A] with [B]), and leaves the text
    after the last digit of [B] unread. *)
Theorem crispr_header_roundtrip :
  forall dn ws da db rest n a b,
  decimal_run dn = true -> parse_usize dn = Some n -> 1 <= n ->
  space_run ws = true ->
  decimal_run da = true -> parse_usize da = Some a -> 1 <= a ->
  decimal_run db = true -> parse_usize db = Some b ->
  starts_with is_digit rest = false ->
  parse_crispr_order_and_coordinates
    ("CRISPR" ++ " " ++ dn ++ ws ++ "Range:" ++ " " ++ da ++ " - " ++ db ++ rest)
  = Done rest (n - 1, a - 1, b).
Proof.
  intros dn ws da db rest n a b Hdn Hn Hn1 Hws Hda Ha Ha1 Hdb Hb Hr.
  unfold parse_crispr_order_and_coordinates.
  rewrite crispr_header_tuple_text by auto. simpl.
  rewrite Hn, sub_usize_pos, Ha, sub_usize_pos, Hb by auto. reflexivity.
Qed.

Lemma crispr_header_roundtrip_witness :
  parse_crispr_order_and_coordinates
    ("CRISPR" ++ " " ++ "3" ++ "   " ++ "Range:" ++ " " ++ "900" ++ " - " ++ "12" ++ String LF "")
  = Done (String LF "") (3 - 1, 900 - 1, 12).
Proof. apply (crispr_header_roundtrip "3" "   " "900" "12" (String LF "") 3 900 12); first [reflexivity | lia]. Defined.

(** The accession line parser reads [Sequence '<acc>' (<bp> bp)] back as
    [(acc, bp)] for any accession without a quote and any length field
    without a space that [usize::from_str] accepts, and leaves the text
    after [bp)] unread. *)
Theorem accession_line_roundtrip :
  forall acc bp v rest,
  all_chars not_quote acc = true -> all_chars not_space bp = true ->
  parse_usize bp = Some v ->
  parse_accession_line ("Sequence '" ++ acc ++ "'" ++ " " ++ "(" ++ bp ++ " bp)" ++ rest)
  = Done rest (acc, v).
Proof.
  intros acc bp v rest Hacc Hbp Hv.
  unfold parse_accession_line, accession_line_tuple.
  rewrite bind_tag; cbv beta.
  unfold take_until at 1. rewrite (find_split_char_app "'"%char acc) by exact Hacc.
  simpl bind at 1.
  unfold take_until. rewrite (find_split_char " "%char bp) by exact Hbp.
  simpl. rewrite Hv. reflexivity.
Qed.

Lemma accession_line_roundtrip_witness :
  parse_accession_line ("Sequence '" ++ "MGYG000166779_38" ++ "'" ++ " " ++ "(" ++ "12280"
                        ++ " bp)" ++ String LF "")
  = Done (String LF "") ("MGYG000166779_38", 12280).
Proof. apply accession_line_roundtrip; reflexivity. Defined.

(** *** Rows *)

Lemma take_while1_no_start p s : starts_with p s = false -> take_while1 p s = Error.
Proof.
  destruct s as [|c s]; unfold take_while1; simpl; intros H; [reflexivity|].
  rewrite H. reflexivity.
Qed.

Lemma add_usize_lt a b : a + b < usize_bound -> add_usize a b = Some (a + b).
Proof.
  unfold add_usize. intros H. destruct (Z.ltb (a + b) usize_bound) eqn:E; [reflexivity|].
  apply Z.ltb_ge in E. lia.
Qed.

Lemma len_nonneg s : 0 <= len s.
Proof. unfold len. lia. Qed.

Lemma starts_with_line p tail rest :
  p LF = false -> starts_with p tail = false -> starts_with p (tail ++ String LF rest) = false.
Proof. destruct tail; simpl; auto. Qed.

Lemma repeat_only_tuple_text dp ws1 R ws2 rest :
  decimal_run dp = true -> space_run ws1 = true -> letter_run R = true ->
  space_run ws2 = true -> starts_with is_multispace rest = false ->
  repeat_only_tuple (dp ++ ws1 ++ R ++ ws2 ++ rest) = Done rest (dp, R).
Proof.
  intros Hd Hw1 HR Hw2 Hr. unfold repeat_only_tuple, digit1, multispace1, alpha1.
  rewrite bind_take_while1 by (auto; apply run_starts with is_multispace; auto;
                               exact multispace_not_digit). cbv beta.
  rewrite bind_take_while1 by (auto; apply run_starts with is_alpha; auto;
                               exact alpha_not_multispace). cbv beta.
  rewrite bind_take_while1 by (auto; apply run_starts with is_multispace; auto;
                               exact multispace_not_alpha). cbv beta.
  rewrite bind_take_while1 by auto. reflexivity.
Qed.

Lemma repeat_with_spacer_tuple_no_spacer dp ws1 R ws2 rest :
  decimal_run dp = true -> space_run ws1 = true -> letter_run R = true ->
  space_run ws2 = true -> starts_with is_multispace rest = false ->
  starts_with is_alpha rest = false ->
  repeat_with_spacer_tuple (dp ++ ws1 ++ R ++ ws2 ++ rest) = Error.
Proof.
  intros Hd Hw1 HR Hw2 Hr Ha. unfold repeat_with_spacer_tuple, digit1, multispace1, alpha1.
  rewrite bind_take_while1 by (auto; apply run_starts with is_multispace; auto;
                               exact multispace_not_digit). cbv beta.
  rewrite bind_take_while1 by (auto; apply run_starts with is_alpha; auto;
                               exact alpha_not_multispace). cbv beta.
  rewrite bind_take_while1 by (auto; apply run_starts with is_multispace; auto;
                               exact multispace_not_alpha). cbv beta.
  rewrite bind_take_while1 by auto. cbv beta.
  rewrite take_while1_no_start by exact Ha. reflexivity.
Qed.

Lemma repeat_with_spacer_tuple_text dp ws1 R ws2 S tail rest :
  decimal_run dp = true -> space_run ws1 = true -> letter_run R = true ->
  space_run ws2 = true -> letter_run S = true ->
  all_chars (fun c => negb (is_line_terminator c)) tail = true ->
  starts_with is_alpha tail = false ->
  repeat_with_spacer_tuple (dp ++ ws1 ++ R ++ ws2 ++ S ++ tail ++ String LF rest)
  = Done rest (dp, R, S).
Proof.
  intros Hd Hw1 HR Hw2 HS Ht Ht'. unfold repeat_with_spacer_tuple, digit1, multispace1, alpha1.
  rewrite bind_take_while1 by (auto; apply run_starts with is_multispace; auto;
                               exact multispace_not_digit). cbv beta.
  rewrite bind_take_while1 by (auto; apply run_starts with is_alpha; auto;
                               exact alpha_not_multispace). cbv beta.
  rewrite bind_take_while1 by (auto; apply run_starts with is_multispace; auto;
                               exact multispace_not_alpha). cbv beta.
  rewrite bind_take_while1 by (auto; apply run_starts with is_alpha; auto;
                               exact alpha_not_multispace). cbv beta.
  rewrite bind_take_while1 by (auto; apply starts_with_line; auto). cbv beta.
  unfold not_line_ending. rewrite split_line_stop by exact Ht. reflexivity.
Qed.

(** A row of position, whitespace, repeat and whitespace that is followed
    by neither a letter nor whitespace fails the two-sequence form, and
    [alt] falls back to the repeat-only form on the same input: the row
    gives [WithoutSpacer] with [start = P - 1] and [end = P - 1 + |R|].
    The trailing whitespace run, line endings included, is consumed. *)
Theorem repeat_only_row_roundtrip :
  forall dp ws1 R ws2 rest p,
  decimal_run dp = true -> parse_usize dp = Some p -> 1 <= p ->
  space_run ws1 = true -> letter_run R = true -> space_run ws2 = true ->
  starts_with is_alpha rest = false -> starts_with is_multispace rest = false ->
  p - 1 + len R < usize_bound ->
  parse_repeat_spacer_line (dp ++ ws1 ++ R ++ ws2 ++ rest)
  = Done rest (WithoutSpacer (RepeatOnly.mk R (p - 1) (p - 1 + len R))).
Proof.
  intros dp ws1 R ws2 rest p Hd Hp Hp1 Hw1 HR Hw2 Ha Hm Hb.
  unfold parse_repeat_spacer_line, alt, parse_repeat_with_spacer.
  rewrite repeat_with_spacer_tuple_no_spacer by auto.
  unfold parse_repeat_only. rewrite repeat_only_tuple_text by auto. simpl.
  rewrite Hp, sub_usize_pos, add_usize_lt by auto. reflexivity.
Qed.

Lemma repeat_only_row_roundtrip_witness :
  parse_repeat_spacer_line ("49" ++ (tab ++ tab) ++ "A" ++ String LF "" ++ "--------")
  = Done "--------" (WithoutSpacer (RepeatOnly.mk "A" (49 - 1) (49 - 1 + len "A"))).
Proof.
  apply (repeat_only_row_roundtrip "49" (tab ++ tab) "A" (String LF "") "--------" 49);
    first [reflexivity | lia].
Defined.

(** A row of position, whitespace, repeat, whitespace, spacer and any
    further text on the line (not starting with a letter) gives
    [WithSpacer] with the offsets derived from [P], [|R|] and [|S|]; the
    rest of the line and its ['\n'] are consumed. *)
Theorem repeat_with_spacer_row_roundtrip :
  forall dp ws1 R ws2 S tail rest p,
  decimal_run dp = true -> parse_usize dp = Some p -> 1 <= p ->
  space_run ws1 = true -> letter_run R = true -> space_run ws2 = true ->
  letter_run S = true ->
  all_chars (fun c => negb (is_line_terminator c)) tail = true ->
  starts_with is_alpha tail = false ->
  p - 1 + len R + len S < usize_bound ->
  parse_repeat_spacer_line (dp ++ ws1 ++ R ++ ws2 ++ S ++ tail ++ String LF rest)
  = Done rest (WithSpacer (RepeatSpacer.mk R S (p - 1) (p - 1 + len R + len S)
                             (p - 1 + len R) (p - 1 + len R + len S)
                             (p - 1) (p - 1 + len R))).
Proof.
  intros dp ws1 R ws2 S tail rest p Hd Hp Hp1 Hw1 HR Hw2 HS Ht Ht' Hb.
  pose proof (len_nonneg R). pose proof (len_nonneg S).
  unfold parse_repeat_spacer_line, alt, parse_repeat_with_spacer.
  rewrite repeat_with_spacer_tuple_text by auto. simpl.
  rewrite Hp, sub_usize_pos by auto.
  repeat (rewrite add_usize_lt by lia; cbv beta iota).
  reflexivity.
Qed.

Lemma repeat_with_spacer_row_roundtrip_witness :
  parse_repeat_spacer_line ("10" ++ (tab ++ tab) ++ "CAAGTG" ++ tab ++ "GGGG"
                            ++ (tab ++ "[ 6, 4 ]") ++ String LF "49")
  = Done "49" (WithSpacer (RepeatSpacer.mk "CAAGTG" "GGGG"
                             (10 - 1) (10 - 1 + len "CAAGTG" + len "GGGG")
                             (10 - 1 + len "CAAGTG") (10 - 1 + len "CAAGTG" + len "GGGG")
                             (10 - 1) (10 - 1 + len "CAAGTG"))).
Proof.
  apply (repeat_with_spacer_row_roundtrip "10" (tab ++ tab) "CAAGTG" tab "GGGG"
           (tab ++ "[ 6, 4 ]") "49" 10);
    first [reflexivity | lia].
Defined.

(** *** When the parsers panic *)

Lemma bind_no_panic {A B} (r : IResult A) (k : string -> A -> IResult B) :
  r <> Panic -> (forall i a, k i a <> Panic) -> bind r k <> Panic.
Proof. destruct r; simpl; auto; discriminate. Qed.

Lemma take_while1_no_panic p i : take_while1 p i <> Panic.
Proof. unfold take_while1. destruct (split_while p i) as [[|c a] b]; discriminate. Qed.

Lemma tag_no_panic t i : tag t i <> Panic.
Proof. unfold tag. destruct (strip_prefix t i); discriminate. Qed.

Lemma char_no_panic c i : char c i <> Panic.
Proof. destruct i; simpl; [|destruct (Ascii.eqb c a)]; discriminate. Qed.

Lemma take_until_no_panic t i : take_until t i <> Panic.
Proof. unfold take_until. destruct (find_split t i) as [[a b]|]; discriminate. Qed.

Lemma not_line_ending_no_panic i : not_line_ending i <> Panic.
Proof. unfold not_line_ending. destruct (split_line i) as [[a b]|]; discriminate. Qed.

Lemma line_ending_no_panic i : line_ending i <> Panic.
Proof.
  destruct i as [|c i]; simpl; [discriminate|].
  destruct (Ascii.eqb c LF); [discriminate|]. destruct (Ascii.eqb c CR); [|discriminate].
  destruct i as [|d i]; [discriminate|]. destruct (Ascii.eqb d LF); discriminate.
Qed.

Create HintDb nopanic.

#[local] Hint Resolve take_while1_no_panic tag_no_panic char_no_panic take_until_no_panic
  not_line_ending_no_panic line_ending_no_panic : nopanic.

Ltac no_panic_proof :=
  repeat (apply bind_no_panic; [auto with nopanic|intros ? ?]); discriminate.

Lemma crispr_header_tuple_no_panic i : crispr_header_tuple i <> Panic.
Proof. unfold crispr_header_tuple, digit1, multispace1. no_panic_proof. Qed.

Lemma accession_line_tuple_no_panic i : accession_line_tuple i <> Panic.
Proof. unfold accession_line_tuple. no_panic_proof. Qed.

Lemma repeat_only_tuple_no_panic i : repeat_only_tuple i <> Panic.
Proof. unfold repeat_only_tuple, digit1, multispace1, alpha1. no_panic_proof. Qed.

Lemma repeat_with_spacer_tuple_no_panic i : repeat_with_spacer_tuple i <> Panic.
Proof. unfold repeat_with_spacer_tuple, digit1, multispace1, alpha1. no_panic_proof. Qed.

(** The range header parser panics exactly when the header text matches
    and its numbers cannot be converted: the ordinal or the start is 0, or
    one of the three digit runs does not fit a [usize]. *)
Theorem crispr_header_panics_iff :
  forall s,
  parse_crispr_order_and_coordinates s = Panic <->
  exists rest raw_order raw_start raw_end,
    crispr_header_tuple s = Done rest (raw_order, raw_start, raw_end) /\
    ~ (exists n a b, parse_usize raw_order = Some n /\ 1 <= n /\
                     parse_usize raw_start = Some a /\ 1 <= a /\
                     parse_usize raw_end = Some b).
Proof.
  intros s. unfold parse_crispr_order_and_coordinates.
  destruct (crispr_header_tuple s) as [rem [[o a] b]| |] eqn:T.
  - split.
    + intros H. exists rem, o, a, b. split; [reflexivity|].
      intros (n & x & y & Hn & Hn1 & Hx & Hx1 & Hy).
      revert H. rewrite Hn, sub_usize_pos, Hx, sub_usize_pos, Hy by auto. discriminate.
    + intros (rem' & o' & a' & b' & T' & Hno). injection T' as <- <- <- <-.
      destruct (parse_usize o) as [n|] eqn:En; [|reflexivity].
      unfold sub_usize at 1. destruct (Z.ltb n 1) eqn:L1; [reflexivity|].
      destruct (parse_usize a) as [x|] eqn:Ex; [|reflexivity].
      unfold sub_usize. destruct (Z.ltb x 1) eqn:L2; [reflexivity|].
      destruct (parse_usize b) as [y|] eqn:Ey; [|reflexivity].
      exfalso. apply Hno. apply Z.ltb_ge in L1, L2. exists n, x, y. auto.
  - split; [discriminate|]. intros (? & ? & ? & ? & H & _). discriminate.
  - exfalso. exact (crispr_header_tuple_no_panic s T).
Qed.

Lemma crispr_header_panics_iff_witness :
  parse_crispr_order_and_coordinates "CRISPR 1 Range: 18446744073709551616 - 20" = Panic.
Proof.
  apply (proj2 (crispr_header_panics_iff _)).
  exists "", "1", "18446744073709551616", "20". split; [reflexivity|].
  intros (n & a & b & _ & _ & H & _). discriminate.
Defined.

(** The accession line parser panics exactly when the line matches and
    its length field is not a number that [usize::from_str] accepts. *)
Theorem accession_line_panics_iff :
  forall s,
  parse_accession_line s = Panic <->
  exists rest accession bp,
    accession_line_tuple s = Done rest (accession, bp) /\ parse_usize bp = None.
Proof.
  intros s. unfold parse_accession_line.
  destruct (accession_line_tuple s) as [rem [acc bp]| |] eqn:T.
  - destruct (parse_usize bp) as [n|] eqn:E; simpl; split.
    + discriminate.
    + intros (? & ? & ? & H & H'). injection H as <- <- <-. congruence.
    + intros _. eauto.
    + reflexivity.
  - split; [discriminate|]. intros (? & ? & ? & H & _). discriminate.
  - exfalso. exact (accession_line_tuple_no_panic s T).
Qed.

Lemma accession_line_panics_iff_witness :
  parse_accession_line "Sequence 'X' (-1 bp)" = Panic.
Proof.
  apply (proj2 (accession_line_panics_iff _)).
  exists "", "X", "-1". split; reflexivity.
Defined.

Lemma parse_repeat_with_spacer_on_tuple s rest raw R S :
  repeat_with_spacer_tuple s = Done rest (raw, R, S) ->
  parse_repeat_with_spacer s <> Error /\
  (parse_repeat_with_spacer s = Panic <-> ~ position_fits raw (len R + len S)).
Proof.
  intros T. pose proof (len_nonneg R). pose proof (len_nonneg S).
  unfold parse_repeat_with_spacer. rewrite T.
  match goal with |- context [panic_or rest ?o] => destruct o as [v|] eqn:E end;
    simpl; (split; [discriminate|]).
  - split; [discriminate|]. intros NF. exfalso. apply NF. inv_opts.
    exists z. repeat split; auto; lia.
  - split; [intros _|reflexivity]. intros (p & Hp & Hp1 & Hb). revert E.
    rewrite Hp, sub_usize_pos by auto.
    repeat (rewrite add_usize_lt by lia; cbv beta iota). discriminate.
Qed.

Lemma parse_repeat_only_on_tuple s rest raw R :
  repeat_only_tuple s = Done rest (raw, R) ->
  parse_repeat_only s <> Error /\
  (parse_repeat_only s = Panic <-> ~ position_fits raw (len R)).
Proof.
  intros T. unfold parse_repeat_only. rewrite T.
  match goal with |- context [panic_or rest ?o] => destruct o as [v|] eqn:E end;
    simpl; (split; [discriminate|]).
  - split; [discriminate|]. intros NF. exfalso. apply NF. inv_opts.
    exists z. repeat split; auto; lia.
  - split; [intros _|reflexivity]. intros (p & Hp & Hp1 & Hb). revert E.
    rewrite Hp, sub_usize_pos, add_usize_lt by auto. discriminate.
Qed.

(** A row panics exactly when the form that matches it cannot convert its
    numbers: the two-sequence form matches and its position is 0, does not
    fit a [usize], or puts the end of the spacer past the [usize] range;
    or the two-sequence form fails, the repeat-only form matches, and the
    same holds of its position and repeat. *)
Theorem row_panics_iff :
  forall s,
  parse_repeat_spacer_line s = Panic <->
  (exists rest raw R S, repeat_with_spacer_tuple s = Done rest (raw, R, S) /\
                        ~ position_fits raw (len R + len S)) \/
  (repeat_with_spacer_tuple s = Error /\
   exists rest raw R, repeat_only_tuple s = Done rest (raw, R) /\
                      ~ position_fits raw (len R)).
Proof.
  intros s. unfold parse_repeat_spacer_line, alt.
  destruct (repeat_with_spacer_tuple s) as [rem [[raw R] S]| |] eqn:T.
  - destruct (parse_repeat_with_spacer_on_tuple _ _ _ _ _ T) as [NE HP].
    destruct (parse_repeat_with_spacer s) eqn:W; [|congruence|].
    + split; [discriminate|]. intros [(? & ? & ? & ? & H & NF) | [H _]]; [|discriminate].
      injection H as <- <- <- <-. apply HP in NF. discriminate.
    + split; [intros _; left; exists rem, raw, R, S; split; [reflexivity|]; apply HP; reflexivity|].
      reflexivity.
  - assert (W : parse_repeat_with_spacer s = Error)
      by (unfold parse_repeat_with_spacer; rewrite T; reflexivity).
    rewrite W.
    destruct (repeat_only_tuple s) as [rem [raw R]| |] eqn:T2.
    + destruct (parse_repeat_only_on_tuple _ _ _ _ T2) as [_ HP]. rewrite HP.
      split.
      * intros NF. right. split; [reflexivity|]. exists rem, raw, R. auto.
      * intros [(? & ? & ? & ? & H & _) | [_ (? & ? & ? & H & NF)]]; [discriminate|].
        injection H as <- <- <-. exact NF.
    + unfold parse_repeat_only. rewrite T2. split; [discriminate|].
      intros [(? & ? & ? & ? & H & _) | [_ (? & ? & ? & H & _)]]; discriminate.
    + exfalso. exact (repeat_only_tuple_no_panic s T2).
  - exfalso. exact (repeat_with_spacer_tuple_no_panic s T).
Qed.

Lemma row_panics_iff_witness :
  parse_repeat_spacer_line ("18446744073709551615 ACGT" ++ String LF "--") = Panic.
Proof.
  apply (proj2 (row_panics_iff _)). right. split; [reflexivity|].
  exists "--", "18446744073709551615", "ACGT". split; [reflexivity|].
  intros (p & Hp & _ & Hb). injection Hp as <-. vm_compute in Hb. discriminate.
Defined.

(** *** What [parse] returns *)

Lemma alpha1_letter_run i r v : alpha1 i = Done r v -> letter_run v = true.
Proof.
  intros H. pose proof (take_while1_all _ _ _ _ H) as A.
  apply take_while1_Done in H as [_ Hne]. destruct v; [congruence|exact A].
Qed.

Lemma row_letters_of_row i r v : parse_repeat_spacer_line i = Done r v -> row_letters v = true.
Proof.
  unfold parse_repeat_spacer_line, alt.
  destruct (parse_repeat_with_spacer i) as [r' v'| |] eqn:W; intros H; try discriminate.
  - injection H as <- <-. unfold parse_repeat_with_spacer in W.
    destruct (repeat_with_spacer_tuple i) as [rem [[raw R] S]| |] eqn:T; try discriminate.
    apply panic_or_Done in W; destruct W as [_ W]. inv_opts. simpl.
    unfold repeat_with_spacer_tuple in T. inv_binds.
    repeat match goal with Ha : alpha1 _ = Done _ _ |- _ => apply alpha1_letter_run in Ha end.
    apply andb_true_iff. auto.
  - unfold parse_repeat_only in H.
    destruct (repeat_only_tuple i) as [rem [raw R]| |] eqn:T; try discriminate.
    apply panic_or_Done in H; destruct H as [_ H]. inv_opts. simpl.
    unfold repeat_only_tuple in T. inv_binds.
    repeat match goal with Ha : alpha1 _ = Done _ _ |- _ => apply alpha1_letter_run in Ha end.
    auto.
Qed.

(** Every row the row parser returns carries its repeat, and its spacer
    when it has one, as a non-empty run of ASCII letters. *)
Theorem row_sequences_are_letters :
  forall i r v, parse_repeat_spacer_line i = Done r v -> row_letters v = true.
Proof. exact row_letters_of_row. Qed.

Lemma row_sequences_are_letters_witness :
  row_letters (WithSpacer (RepeatSpacer.mk "ACGT" "GG" 0 6 4 6 0 4)) = true.
Proof. apply (row_sequences_are_letters ("1 ACGT GG" ++ String LF "") ""). reflexivity. Defined.

Lemma chain_Forall {A} (f : Parser A) (P : A -> Prop) i l r :
  (forall i r v, f i = Done r v -> P v) -> chain f i l r -> Forall P l.
Proof. intros HP C. induction C; constructor; eauto. Qed.

Lemma many1_Forall {A} (f : Parser A) (P : A -> Prop) i r l :
  strictly_shrinks f -> (forall i r v, f i = Done r v -> P v) ->
  many1 f i = Done r l -> Forall P l.
Proof.
  intros Hf HP H. unfold many1 in H.
  destruct (f i) as [i1 o| |] eqn:E; try discriminate.
  destruct (run_many_result f [o] i1 Hf) as [R | [l' [r' [R [C _]]]]];
    rewrite R in H; inversion H; subst.
  simpl. constructor; [eauto|]. eapply chain_Forall; eauto.
Qed.

Lemma accession_no_quote s r acc n :
  parse_accession_line s = Done r (acc, n) -> all_chars not_quote acc = true.
Proof.
  unfold parse_accession_line.
  destruct (accession_line_tuple s) as [rem [acc' bp]| |] eqn:T; intros H; try discriminate.
  apply panic_or_Done in H; destruct H as [_ H]. inv_opts.
  unfold accession_line_tuple in T. inv_binds.
  match goal with
  | Ht : take_until "'" ?x = Done _ acc |- _ =>
      unfold take_until in Ht; destruct (find_split "'" x) as [[a' b']|] eqn:F;
        inversion Ht; subst; exact (find_split_char_free _ _ _ _ F)
  end.
Qed.

Lemma parse_array_ok s r a :
  parse_array s = Done r a ->
  Array.repeat_spacers a <> [] /\
  Forall (fun v => row_letters v = true) (Array.repeat_spacers a).
Proof.
  intros H. unfold parse_array in H. inv_binds. simpl.
  match goal with
  | Hm : many1 _ _ = Done _ _ |- _ =>
      split;
      [ destruct (many1_cons _ _ _ _ parse_repeat_spacer_line_strict Hm) as [o [l ->]];
        discriminate
      | exact (many1_Forall _ _ _ _ _ parse_repeat_spacer_line_strict row_letters_of_row Hm) ]
  end.
Qed.

Lemma contig_ok_of_parse s r c : parse_contig_arrays s = Done r c -> contig_ok c.
Proof.
  intros H. unfold parse_contig_arrays in H. inv_binds. unfold contig_ok. simpl.
  match goal with
  | Ha : parse_accession_line _ = Done _ (_, _) |- _ => apply accession_no_quote in Ha
  end.
  match goal with
  | Hm : many1 parse_array _ = Done _ _ |- _ =>
      split; [assumption|split];
      [ destruct (many1_cons _ _ _ _ parse_array_strict Hm) as [o [l ->]]; discriminate
      | exact (many1_Forall _ _ _ _ _ parse_array_strict parse_array_ok Hm) ]
  end.
Qed.

Lemma parse_contigs_ok s cs : parse s = ParseOk cs -> Forall contig_ok cs.
Proof.
  intros H. unfold parse, many0 in H.
  destruct (run_many_result parse_contig_arrays [] s parse_contig_arrays_strict)
    as [E | [l [r [E [C _]]]]]; rewrite E in H; inversion H; subst.
  eapply chain_Forall; [exact contig_ok_of_parse|exact C].
Qed.

(** Every contig [parse] returns has an accession without a quote and at
    least one array; every array has at least one row, and every row has
    letter-run sequences. *)
Theorem parse_output_ok :
  forall s cs, parse s = ParseOk cs -> Forall contig_ok cs.
Proof. exact parse_contigs_ok. Qed.

Lemma parse_output_ok_witness : Forall contig_ok single_contig_expected.
Proof. apply (parse_output_ok single_contig_doc). vm_compute. reflexivity. Defined.

(** *** [parse] as a recursion on contigs *)

Lemma many_loop_more_fuel {A} (f : Parser A) n m acc i x :
  many_loop f n acc i = Some x -> (n <= m)%nat -> many_loop f m acc i = Some x.
Proof.
  revert m acc i; induction n as [|n IH]; intros m acc i H Hm; [discriminate|].
  destruct m as [|m]; [lia|]. simpl in *.
  destruct (f i) as [i1 o| |]; auto.
  destruct (String.length i1 =? String.length i)%nat; auto.
  apply IH; auto. lia.
Qed.

Lemma many_loop_acc {A} (f : Parser A) n acc i :
  many_loop f n acc i = option_map (prepend_items (rev acc)) (many_loop f n [] i).
Proof.
  revert acc i; induction n as [|n IH]; intros acc i; [reflexivity|]. simpl.
  destruct (f i) as [i1 o| |]; simpl.
  - destruct (String.length i1 =? String.length i)%nat; [reflexivity|].
    rewrite (IH (o :: acc)), (IH [o]).
    destruct (many_loop f n [] i1) as [[r l| |]|]; simpl; try reflexivity.
    rewrite <- app_assoc. reflexivity.
  - rewrite app_nil_r. reflexivity.
  - reflexivity.
Qed.

(** [parse] reads one contig at a time: when no contig matches at the
    start it returns no contigs, a panic of the contig parser is a panic
    of [parse], and after a contig [c] it returns [c] in front of what
    [parse] returns on the rest of the text. *)
Theorem parse_unfold :
  forall s,
  parse s = match parse_contig_arrays s with
            | Error => ParseOk []
            | Panic => ParsePanic
            | Done r c => match parse r with
                          | ParseOk cs => ParseOk (c :: cs)
                          | e => e
                          end
            end.
Proof.
  intros s. unfold parse at 1, many0, run_many. simpl.
  destruct (parse_contig_arrays s) as [r c| |] eqn:E; [|reflexivity|reflexivity].
  pose proof (parse_contig_arrays_strict _ _ _ E) as L.
  destruct (String.length r =? String.length s)%nat eqn:L'; [apply Nat.eqb_eq in L'; lia|].
  rewrite many_loop_acc. simpl rev.
  unfold parse, many0, run_many.
  destruct (many_loop parse_contig_arrays (S (String.length r)) [] r) as [x|] eqn:M.
  - rewrite (many_loop_more_fuel _ _ (String.length s) _ _ _ M) by lia.
    destruct x; reflexivity.
  - exfalso. revert M. apply many_loop_halts; auto with lens.
Qed.

(** *** The parse_file example *)



